(** * Chunked encode/decode of [stable_audio_tools.models.autoencoders]

    A shallow embedding of [AudioAutoencoder.encode_audio],
    [AudioAutoencoder.decode_audio], [AudioAutoencoder.encode]/[decode],
    [DiffusionAutoencoder.decode] and [create_autoencoder_from_config].

    Tensors are modelled along the axis the code manipulates: for the chunked
    paths a signal is the list of its time columns (each column holds the
    batch x channel slice at one time step, an abstract type); for the
    [iterate_batch] paths a tensor is the list of its batch items. *)

From Stdlib Require Import ZArith String List Bool Lia.
Import ListNotations.
Open Scope Z_scope.

(** ** Python runtime: errors and the error monad *)

Inductive py_error : Type :=
  | ValueError                 (* e.g. range() arg 3 must not be zero *)
  | UnboundLocalError          (* reading a local that was never assigned *)
  | RuntimeError               (* torch.stack / torch.cat / shape mismatch *)
  | TypeError
  | KeyError (key : string)
  | AssertionError (msg : string)
  | AttributeError             (* e.g. .get on a value that is not a dict *)
  | RecursionError.            (* maximum recursion depth exceeded *)

Inductive res (A : Type) : Type :=
  | Ok (a : A)
  | Err (e : py_error).
Arguments Ok {A} a.
Arguments Err {A} e.

Definition bind {A B : Type} (m : res A) (k : A -> res B) : res B :=
  match m with Ok a => k a | Err e => Err e end.

Notation "x <- m ;; k" := (bind m (fun x => k))
  (at level 61, m at next level, right associativity).

(** ** Python builtins used by the chunking code *)

(** [range(start, stop, step)]: a zero step raises, a negative step counts down. *)
Fixpoint range_up (fuel : nat) (cur stop step : Z) : list Z :=
  match fuel with
  | O => []
  | S f => if cur <? stop then cur :: range_up f (cur + step) stop step else []
  end.

Fixpoint range_down (fuel : nat) (cur stop step : Z) : list Z :=
  match fuel with
  | O => []
  | S f => if stop <? cur then cur :: range_down f (cur + step) stop step else []
  end.

Definition py_range (start stop step : Z) : res (list Z) :=
  if step =? 0 then Err ValueError
  else if 0 <? step then Ok (range_up (Z.to_nat (stop - start)) start stop step)
  else Ok (range_down (Z.to_nat (start - stop)) start stop step).

(** Index normalisation of a basic slice [x[s:e]] (step 1), shared by Python
    lists and torch tensors: negative indices count from the end, then the
    index is clamped to [0, len]. *)
Definition norm_index (len s : Z) : Z :=
  if s <? 0 then Z.max 0 (s + len) else Z.min s len.

Definition slice_bounds (len s e : Z) : Z * Z :=
  let a := norm_index len s in
  let b := norm_index len e in
  (a, Z.max a b).

Definition take_range {A : Type} (l : list A) (ab : Z * Z) : list A :=
  firstn (Z.to_nat (snd ab - fst ab)) (skipn (Z.to_nat (fst ab)) l).

(** [x[:, :, s:e]] along the time axis. *)
Definition py_slice {A : Type} (l : list A) (s e : Z) : list A :=
  take_range l (slice_bounds (Z.of_nat (length l)) s e).

(** [x[:, :, s:]] *)
Definition py_slice_from {A : Type} (l : list A) (s : Z) : list A :=
  py_slice l s (Z.of_nat (length l)).

(** [y[:, :, s:e] = v] on a tensor: the value must have the length of the
    target view, or length 1 (broadcast); otherwise torch raises. The
    normalised target range is returned with the new tensor. *)
Definition setitem_slice {A : Type} (y : list A) (s e : Z) (v : list A)
  : res (list A * (Z * Z)) :=
  let '(a, b) := slice_bounds (Z.of_nat (length y)) s e in
  let n := b - a in
  let v' := if Z.of_nat (length v) =? n then Ok v
            else match v with
                 | [c] => Ok (repeat c (Z.to_nat n))
                 | _ => Err RuntimeError
                 end in
  w <- v' ;;
  Ok (firstn (Z.to_nat a) y ++ w ++ skipn (Z.to_nat b) y, (a, b)).

(** [torch.stack(chunks)]: all windows must have the same shape; an empty
    list raises. *)
Definition stack_check {A : Type} (chunks : list (list A)) : res unit :=
  match chunks with
  | [] => Err RuntimeError
  | c :: rest =>
      if forallb (fun c' => Nat.eqb (length c') (length c)) rest
      then Ok tt else Err RuntimeError
  end.

(** ** The sliding window procedure (shared verbatim by encode_audio and
    decode_audio)

<<
    chunks = []
    for i in range(0, total_size - chunk_size + 1, hop_size):
        chunk = x[:, :, i : i + chunk_size]
        chunks.append(chunk)
    if i + chunk_size != total_size:
        # Final chunk
        chunk = x[:, :, -chunk_size:]
        chunks.append(chunk)
>>
    The windows are returned as their normalised [(start, stop)] bounds; the
    loop variable [i] is unbound after an empty loop. *)
Definition chunk_windows (total_size chunk_size hop_size : Z) : res (list (Z * Z)) :=
  grid <- py_range 0 (total_size - chunk_size + 1) hop_size ;;
  let ws := map (fun i => slice_bounds total_size i (i + chunk_size)) grid in
  match last (map Some grid) None with
  | None => Err UnboundLocalError
  | Some i =>
      if negb (i + chunk_size =? total_size)
      then Ok (ws ++ [slice_bounds total_size (- chunk_size) total_size])
      else Ok ws
  end.

(** ** The stitching loop (shared structure of encode_audio and decode_audio)

    What the chunked paths do, in order, is recorded as a trace: one
    [ECall x] per invocation of the codec on a window [x], one [EPaste a b]
    per slice assignment into the output buffer, with its normalised target
    range. *)

Inductive event (X : Type) : Type :=
  | ECall (x : list X)
  | EPaste (a b : Z).
Arguments ECall {X} x.
Arguments EPaste {X} a b.

Section Stitch.
Context {X Y : Type}.
(** [self.encode] (resp. [self.decode]) called on one window *)
Variable codec : list X -> list Y.
(** placement of chunk [i] given [y_chunk.shape[2]]:
    [(t_start, t_end, chunk_start, chunk_end)] *)
Variable place : Z -> Z -> Z * Z * Z * Z.

(** <<
    for i in range(num_chunks):
        x_chunk = chunks[i, :]
        y_chunk = self.encode(x_chunk)          # resp. self.decode
        ...placement...
        y_final[:, :, t_start:t_end] = y_chunk[:, :, chunk_start:chunk_end]
>> *)
Fixpoint stitch (chunks : list (list X)) (i : Z) (y_final : list Y)
  (tr : list (event X)) : res (list Y * list (event X)) :=
  match chunks with
  | [] => Ok (y_final, tr)
  | x_chunk :: rest =>
      let y_chunk := codec x_chunk in
      let '(t_start, t_end, chunk_start, chunk_end) :=
        place i (Z.of_nat (length y_chunk)) in
      r <- setitem_slice y_final t_start t_end
             (py_slice y_chunk chunk_start chunk_end) ;;
      let '(y', (a, b)) := r in
      stitch rest (i + 1) y' (tr ++ [ECall x_chunk; EPaste a b])
  end.
End Stitch.

(** Placement arithmetic of [encode_audio] (sizes in samples, output in
    latent frames; [//] is floor division, [Z.div]). *)
Definition encode_place (num_chunks hop_size chunk_size overlap
  samples_per_latent y_size : Z) (i ylen : Z) : Z * Z * Z * Z :=
  let '(t_start, t_end) :=
    if i =? num_chunks - 1 then
      (* final chunk always goes at the end *)
      (y_size - ylen, y_size)
    else
      let t_start := i * hop_size / samples_per_latent in
      (t_start, t_start + chunk_size / samples_per_latent) in
  let ol := overlap / samples_per_latent / 2 in
  let chunk_start := 0 in
  let chunk_end := ylen in
  let '(t_start, chunk_start) :=
    if 0 <? i then (t_start + ol, chunk_start + ol) else (t_start, chunk_start) in
  let '(t_end, chunk_end) :=
    if i <? num_chunks - 1 then (t_end - ol, chunk_end - ol) else (t_end, chunk_end) in
  (t_start, t_end, chunk_start, chunk_end).

(** Placement arithmetic of [decode_audio] (sizes in latent frames, output
    in samples). *)
Definition decode_place (num_chunks hop_size chunk_size overlap
  samples_per_latent y_size : Z) (i ylen : Z) : Z * Z * Z * Z :=
  let '(t_start, t_end) :=
    if i =? num_chunks - 1 then
      (y_size - ylen, y_size)
    else
      let t_start := i * hop_size * samples_per_latent in
      (t_start, t_start + chunk_size * samples_per_latent) in
  let ol := overlap / 2 * samples_per_latent in
  let chunk_start := 0 in
  let chunk_end := ylen in
  let '(t_start, chunk_start) :=
    if 0 <? i then (t_start + ol, chunk_start + ol) else (t_start, chunk_start) in
  let '(t_end, chunk_end) :=
    if i <? num_chunks - 1 then (t_end - ol, chunk_end - ol) else (t_end, chunk_end) in
  (t_start, t_end, chunk_start, chunk_end).

(** Keyword arguments and values of the Python side, kept first order. *)
#[warnings="-register-all"]
Inductive pyval : Type :=
  | PNone
  | PBool (b : bool)
  | PInt (z : Z)
  | PStr (s : string)
  | PDict (d : list (string * pyval)).

Definition kwargs := list (string * pyval).

(** What [self.encode(audio, **kwargs)] returns: the latents, or the pair
    [(latents, info)] when [return_info=True]. *)
Inductive enc_ret (L I : Type) : Type :=
  | RetLatents (l : list L)
  | RetLatentsInfo (l : list L) (info : I).
Arguments RetLatents {L I} l.
Arguments RetLatentsInfo {L I} l info.

Section Chunked.
Variables Aud Lat Info : Type.
(** the zero column of [torch.zeros((batch_size, latent_dim, y_size))] and of
    [torch.zeros((batch_size, out_channels, y_size))] *)
Variable zero_lat : Lat.
Variable zero_aud : Aud.
(** [self.downsampling_ratio] *)
Variable downsampling_ratio : Z.
(** [self.encode(x)] and [self.decode(x)] with no keyword arguments, as the
    chunk loops call them *)
Variable encode : list Aud -> list Lat.
Variable decode : list Lat -> list Aud.
(** [self.encode(audio, **kwargs)] and [self.decode(latents, **kwargs)] as the
    non-chunked paths call them *)
Variable encode_kw : kwargs -> list Aud -> enc_ret Lat Info.
Variable decode_kw : kwargs -> list Lat -> list Aud.

Definition encode_audio_chunked (audio : list Aud) (overlap chunk_size : Z)
  : res (list Lat * list (event Aud)) :=
  let samples_per_latent := downsampling_ratio in
  let total_size := Z.of_nat (length audio) in
  let chunk_size := chunk_size * samples_per_latent in
  let overlap := overlap * samples_per_latent in
  let hop_size := chunk_size - overlap in
  ws <- chunk_windows total_size chunk_size hop_size ;;
  let chunks := map (take_range audio) ws in
  _ <- stack_check chunks ;;
  let num_chunks := Z.of_nat (length chunks) in
  let y_size := total_size / samples_per_latent in
  let y_final := repeat zero_lat (Z.to_nat y_size) in
  stitch encode
    (encode_place num_chunks hop_size chunk_size overlap samples_per_latent y_size)
    chunks 0 y_final [].

Definition decode_audio_chunked (latents : list Lat) (overlap chunk_size : Z)
  : res (list Aud * list (event Lat)) :=
  let hop_size := chunk_size - overlap in
  let total_size := Z.of_nat (length latents) in
  ws <- chunk_windows total_size chunk_size hop_size ;;
  let chunks := map (take_range latents) ws in
  _ <- stack_check chunks ;;
  let num_chunks := Z.of_nat (length chunks) in
  let samples_per_latent := downsampling_ratio in
  let y_size := total_size * samples_per_latent in
  let y_final := repeat zero_aud (Z.to_nat y_size) in
  stitch decode
    (decode_place num_chunks hop_size chunk_size overlap samples_per_latent y_size)
    chunks 0 y_final [].

(** [encode_audio(audio, chunked, overlap, chunk_size, **kwargs)] *)
Definition encode_audio (audio : list Aud) (chunked : bool) (overlap chunk_size : Z)
  (kw : kwargs) : res (enc_ret Lat Info * list (event Aud)) :=
  if negb chunked then
    (* default behavior. Encode the entire audio in parallel *)
    Ok (encode_kw kw audio, [ECall audio])
  else
    r <- encode_audio_chunked audio overlap chunk_size ;;
    Ok (RetLatents (fst r), snd r).

(** [decode_audio(latents, chunked, overlap, chunk_size, **kwargs)] *)
Definition decode_audio (latents : list Lat) (chunked : bool) (overlap chunk_size : Z)
  (kw : kwargs) : res (list Aud * list (event Lat)) :=
  if negb chunked then Ok (decode_kw kw latents, [ECall latents])
  else decode_audio_chunked latents overlap chunk_size.

End Chunked.

(** Reading a trace: the pasted ranges, the codec invocations, and how many
    pastes write an output index. *)
Definition pastes {X : Type} (tr : list (event X)) : list (Z * Z) :=
  flat_map (fun e => match e with EPaste a b => [(a, b)] | ECall _ => [] end) tr.

Definition calls {X : Type} (tr : list (event X)) : list (list X) :=
  flat_map (fun e => match e with ECall x => [x] | EPaste _ _ => [] end) tr.

Definition writes (rs : list (Z * Z)) (x : Z) : nat :=
  length (filter (fun r => (fst r <=? x) && (x <? snd r)) rs).

(** A toy codec pair with the ratios of the spec: the encoder keeps one
    value per [R] samples, the decoder repeats each latent [R] times. *)
Definition toy_encode (R : nat) (x : list Z) : list Z :=
  firstn (length x / R) x.

Definition toy_decode (R : nat) (x : list Z) : list Z :=
  flat_map (fun v => repeat v R) x.

(** [kwargs.get(k, False)] for a boolean keyword argument *)
Definition kwarg_true (k : string) (kw : kwargs) : bool :=
  match find (fun p => String.eqb (fst p) k) kw with
  | Some (_, PBool true) => true
  | _ => false
  end.

(** [self.encode(x, **kwargs)] of the toy codec: [return_info=True] makes it
    return the pair [(latents, info)], as [AudioAutoencoder.encode] does. *)
Definition toy_encode_kw (R : nat) (kw : kwargs) (x : list Z) : enc_ret Z unit :=
  if kwarg_true "return_info" kw then RetLatentsInfo (toy_encode R x) tt
  else RetLatents (toy_encode R x).

(** ** Vocabulary for the proofs *)

(** [range(cur, ..., step)] unrolled [n] times *)
Fixpoint zgrid (cur step : Z) (n : nat) : list Z :=
  match n with
  | O => []
  | S m => cur :: zgrid (cur + step) step m
  end.

(** the chunk indices [i, i+1, ..., i+n-1] *)
Fixpoint zseq (i : Z) (n : nat) : list Z :=
  match n with
  | O => []
  | S m => i :: zseq (i + 1) m
  end.

(** [covers_from s rs e]: scanning the ranges in order, each one starts at or
    before the frontier reached so far, and the frontier ends at or after [e]. *)
Fixpoint covers_from (s : Z) (rs : list (Z * Z)) (e : Z) : Prop :=
  match rs with
  | [] => e <= s
  | (a, b) :: t => a <= s /\ covers_from (Z.max s b) t e
  end.

(** [tiles_from s rs e]: the ranges are laid end to end from [s] to [e]. *)
Fixpoint tiles_from (s : Z) (rs : list (Z * Z)) (e : Z) : Prop :=
  match rs with
  | [] => s = e
  | (a, b) :: t => a = s /\ s <= b /\ tiles_from b t e
  end.

(** The trace a stitching loop produces when every slice assignment succeeds. *)
Fixpoint stitch_trace {X : Type} (place : Z -> Z -> Z * Z * Z * Z) (ylen : Z)
  (chunks : list (list X)) (i : Z) : list (event X) :=
  match chunks with
  | [] => []
  | x :: rest =>
      let '(ts, te, _, _) := place i ylen in
      ECall x :: EPaste ts te :: stitch_trace place ylen rest (i + 1)
  end.

(** The target range of chunk [j] of [n], written in latent units and scaled
    by [sc] ([sc = 1] for encode, [sc = R] for decode), with hop [h], chunk
    [c], half-overlap [ol] and output length [l] (in latent frames). *)
Definition target_range (sc h c ol l n j : Z) : Z * Z :=
  if j =? n - 1 then (sc * (l - c + (if 0 <? j then ol else 0)), sc * l)
  else (sc * (j * h + (if 0 <? j then ol else 0)), sc * (j * h + c - ol)).

(** The trace of a stitching loop that invoked the codec on [chunks] one
    window at a time, each invocation followed by the paste of its result at
    the corresponding range of [ps]. *)
Definition call_paste_trace {X : Type} (chunks : list (list X)) (ps : list (Z * Z))
  : list (event X) :=
  flat_map (fun p => [ECall (fst p); EPaste (fst (snd p)) (snd (snd p))])
    (combine chunks ps).

(** Number of windows [chunk_windows total chunk hop] produces: the hop grid
    [0, hop, ..., k*hop] and, when it stops short, the right-aligned one. *)
Definition num_windows (total chunk hop : Z) : Z :=
  let k := (total - chunk) / hop in
  k + 1 + (if k * hop + chunk =? total then 0 else 1).

(** Chunk [j]'s placement is a pair of ranges of equal length inside the
    output buffer and inside the chunk's codec output. *)
Definition place_ok (place : Z -> Z -> Z * Z * Z * Z) (ylen ybuf j : Z) : Prop :=
  let '(ts, te, cs, ce) := place j ylen in
  0 <= ts <= te /\ te <= ybuf /\ 0 <= cs <= ce /\ ce <= ylen /\ te - ts = ce - cs.

(** ** AudioAutoencoder.encode and AudioAutoencoder.decode, with [iterate_batch]

    Tensors are taken batch-major: a batch is the list of its items, and a
    module maps a batch to a batch. [x[i:i+1]] is the one-item slice, and
    [torch.cat] of an empty list raises. *)

(** [torch.cat(xs, dim=0)] *)
Definition torch_cat {T : Type} (xs : list (list T)) : res (list T) :=
  match xs with
  | [] => Err RuntimeError
  | _ => Ok (concat xs)
  end.

(** [outs = []; for i in range(n): outs.append(f(src[i:i+1])); torch.cat(outs, dim=0)] *)
Definition iterate_batch_loop {T : Type} (f : list T -> list T) (src : list T) (n : Z)
  : res (list T) :=
  torch_cat (map (fun i => f (py_slice src i (i + 1))) (zseq 0 (Z.to_nat n))).

(** [info.update(u)] *)
Definition dict_update (d u : list (string * pyval)) : list (string * pyval) :=
  u ++ filter (fun p => negb (existsb (fun q => String.eqb (fst q) (fst p)) u)) d.

Section AudioAE.
Variable T : Type.
(** [self.pretransform]: its [enable_grad] flag, [encode] and [decode] *)
Variable pretransform : option (bool * (list T -> list T) * (list T -> list T)).
(** [self.encoder] (may be None) and [self.decoder(x, **kwargs)] *)
Variable encoder : option (list T -> list T).
Variable decoder : kwargs -> list T -> list T.
(** [self.bottleneck]: [encode(x, return_info=True, **kwargs)] and [decode] *)
Variable bottleneck :
  option ((kwargs -> list T -> list T * list (string * pyval)) * (list T -> list T)).
Variable soft_clip : bool.
(** [torch.tanh], item-wise *)
Variable tanh : T -> T.

Definition len {A : Type} (l : list A) : Z := Z.of_nat (length l).

Definition encode (audio : list T) (return_info skip_pretransform iterate_batch : bool)
  (kw : kwargs) : res (enc_ret T (list (string * pyval))) :=
  let info := [] in
  (* the enable_grad and no_grad branches compute the same values *)
  audio <- match pretransform with
           | Some (_, pt_encode, _) =>
               if negb skip_pretransform then
                 if iterate_batch then iterate_batch_loop pt_encode audio (len audio)
                 else Ok (pt_encode audio)
               else Ok audio
           | None => Ok audio
           end ;;
  latents <- match encoder with
             | Some enc =>
                 if iterate_batch then iterate_batch_loop enc audio (len audio)
                 else Ok (enc audio)
             | None => Ok audio
             end ;;
  let '(latents, info) :=
    match bottleneck with
    | Some (bn_encode, _) =>
        let '(latents, bottleneck_info) := bn_encode kw latents in
        (latents, dict_update info bottleneck_info)
    | None => (latents, info)
    end in
  if return_info then Ok (RetLatentsInfo latents info) else Ok (RetLatents latents).

Definition decode (latents : list T) (iterate_batch : bool) (kw : kwargs) : res (list T) :=
  latents <- match bottleneck with
             | Some (_, bn_decode) =>
                 if iterate_batch then iterate_batch_loop bn_decode latents (len latents)
                 else Ok (bn_decode latents)
             | None => Ok latents
             end ;;
  decoded <- (if iterate_batch then iterate_batch_loop (decoder []) latents (len latents)
              else Ok (decoder kw latents)) ;;
  decoded <- match pretransform with
             | Some (enable_grad, _, pt_decode) =>
                 if enable_grad then
                   if iterate_batch then iterate_batch_loop pt_decode decoded (len decoded)
                   else Ok (pt_decode decoded)
                 else
                   (* the no_grad loop runs over range(latents.shape[0]) *)
                   if iterate_batch then iterate_batch_loop pt_decode decoded (len latents)
                   else Ok (pt_decode decoded)
             | None => Ok decoded
             end ;;
  Ok (if soft_clip then map tanh decoded else decoded).

End AudioAE.

(** A batch module that processes its items independently: the batched call
    equals the item-by-item one. *)
Definition per_sample {T : Type} (f : list T -> list T) : Prop :=
  exists g : T -> T, forall xs, f xs = map g xs.

(** ** DiffusionAutoencoder.decode

    [fuel] is the interpreter's remaining recursion depth: a call made with
    none left raises RecursionError. *)
Section DiffusionAE.
Variable T : Type.
(** [x.shape[2]] *)
Variable shape2 : T -> Z.
Variable downsampling_ratio : Z.
Variable bottleneck_decode : option (T -> T).
(** [self.decoder]: only tested against None *)
Variable decoder : option (T -> T).
(** [F.interpolate(x, size=n, mode="nearest")] *)
Variable interpolate : T -> Z -> T.
(** [torch.randn(x.shape[0], self.io_channels, n)] *)
Variable randn : T -> Z -> T.
(** [sample(self.diffusion, noise, steps, 0, input_concat_cond=x)] *)
Variable sample : T -> Z -> T -> T.
Variable pretransform_decode : option (T -> T).

Definition bottleneck_step (latents : T) : T :=
  match bottleneck_decode with Some bd => bd latents | None => latents end.

(** everything after the [if self.decoder is not None] branch *)
Definition diffusion_tail (upsampled_length steps : Z) (latents : T) : T :=
  let latents := if negb (shape2 latents =? upsampled_length)
                 then interpolate latents upsampled_length else latents in
  let noise := randn latents upsampled_length in
  let decoded := sample noise steps latents in
  match pretransform_decode with Some pd => pd decoded | None => decoded end.

Fixpoint diffusion_decode (fuel : nat) (latents : T) (steps : Z) : res T :=
  match fuel with
  | O => Err RecursionError
  | S fuel' =>
      let upsampled_length := shape2 latents * downsampling_ratio in
      let latents := bottleneck_step latents in
      latents <- match decoder with
                 | Some _ => diffusion_decode fuel' latents 100   (* self.decode(latents) *)
                 | None => Ok latents
                 end ;;
      Ok (diffusion_tail upsampled_length steps latents)
  end.

End DiffusionAE.

(** ** The autoencoder factories

    Building a module allocates its weights; the factories are run in a
    writer-and-error monad that logs each allocation, so the log of a failed
    run shows what was allocated before the error. *)

Inductive alloc : Type :=
  | AllocEncoder (ty : string)
  | AllocDecoder (ty : string)
  | AllocPretransform
  | AllocBottleneck
  | AllocAutoencoder.

Definition cm (A : Type) : Type := (list alloc * res A)%type.

Definition cm_ret {A : Type} (a : A) : cm A := ([], Ok a).

Definition cm_lift {A : Type} (r : res A) : cm A := ([], r).

Definition cm_log (a : alloc) : cm unit := ([a], Ok tt).

Definition cm_bind {A B : Type} (m : cm A) (k : A -> cm B) : cm B :=
  match m with
  | (l1, Ok a) => let (l2, r) := k a in (l1 ++ l2, r)
  | (l1, Err e) => (l1, Err e)
  end.

Notation "x <+ m ;; k" := (cm_bind m (fun x => k))
  (at level 61, m at next level, right associativity).

(** Python dicts with string keys *)
Definition dict_lookup (k : string) (d : list (string * pyval)) : option pyval :=
  match find (fun p => String.eqb (fst p) k) d with
  | Some (_, v) => Some v
  | None => None
  end.

(** [d.get(k, default)] *)
Definition dict_get (k : string) (d : list (string * pyval)) (default : pyval) : pyval :=
  match dict_lookup k d with Some v => v | None => default end.

(** [v[k]] and [v.get(k, default)] on a value that should be a dict *)
Definition getitem (k : string) (v : pyval) : res pyval :=
  match v with
  | PDict d => match dict_lookup k d with Some x => Ok x | None => Err (KeyError k) end
  | _ => Err TypeError
  end.

Definition get (k : string) (v : pyval) (default : pyval) : res pyval :=
  match v with PDict d => Ok (dict_get k d default) | _ => Err AttributeError end.

Definition is_none (v : pyval) : bool :=
  match v with PNone => true | _ => false end.

(** [assert b, msg] *)
Definition py_assert (b : bool) (msg : string) : res unit :=
  if b then Ok tt else Err (AssertionError msg).

(** keyword-argument unpacking needs a mapping *)
Definition as_kwargs (v : pyval) : res kwargs :=
  match v with PDict d => Ok d | _ => Err TypeError end.

Section Factories.
Local Open Scope string_scope.

(** The modules the factories build come from other files and libraries;
    each construction is given by what it does: the allocations it makes,
    in order, and whether it raises (possibly after allocating). *)

(** [from <module> import <name>] *)
Variable py_import : string -> string -> res unit.
(** The rest of the encoder (decoder) branch for type [ty] once
    [cfg = encoder_config["config"]] is read: SEANet's [ratios] reversal
    (encoder only), the keyword unpacking of [cfg] and the constructor call
    (OobleckEncoder, SEANetEncoder, DACEncoderWrapper or TransformerEncoder1D,
    and the decoders likewise). *)
Variable new_encoder : string -> pyval -> cm unit.
Variable new_decoder : string -> pyval -> cm unit.
(** [create_pretransform_from_config(pretransform, sample_rate)] *)
Variable new_pretransform : pyval -> pyval -> cm unit.
(** [create_bottleneck_from_config(bottleneck)] *)
Variable new_bottleneck : pyval -> cm unit.

Definition known_module_types : list string := ["oobleck"; "seanet"; "dac"; "local_attn"].

(** the import statement a branch runs before reading its config *)
Definition encoder_import (ty : string) : option (string * string) :=
  if String.eqb ty "seanet" then Some ("encodec.modules", "SEANetEncoder")
  else if String.eqb ty "local_attn" then Some (".local_attention", "TransformerEncoder1D")
  else None.

Definition decoder_import (ty : string) : option (string * string) :=
  if String.eqb ty "seanet" then Some ("encodec.modules", "SEANetDecoder")
  else if String.eqb ty "local_attn" then Some (".local_attention", "TransformerDecoder1D")
  else None.

Definition run_import (i : option (string * string)) : res unit :=
  match i with Some (m, n) => py_import m n | None => Ok tt end.

(** The module is represented by its type tag. *)
Definition create_encoder_from_config (encoder_config : pyval) : cm string :=
  encoder_type <+ cm_lift (get "type" encoder_config PNone) ;;
  _ <+ cm_lift (py_assert (negb (is_none encoder_type)) "Encoder type must be specified") ;;
  match encoder_type with
  | PStr ty =>
      if existsb (String.eqb ty) known_module_types then
        _ <+ cm_lift (run_import (encoder_import ty)) ;;
        cfg <+ cm_lift (getitem "config" encoder_config) ;;
        _ <+ new_encoder ty cfg ;;
        _ <+ cm_lift (get "requires_grad" encoder_config (PBool true)) ;;
        cm_ret ty
      else cm_lift (Err ValueError)
  | _ => cm_lift (Err ValueError)
  end.

Definition create_decoder_from_config (decoder_config : pyval) : cm string :=
  decoder_type <+ cm_lift (get "type" decoder_config PNone) ;;
  _ <+ cm_lift (py_assert (negb (is_none decoder_type)) "Decoder type must be specified") ;;
  match decoder_type with
  | PStr ty =>
      if existsb (String.eqb ty) known_module_types then
        _ <+ cm_lift (run_import (decoder_import ty)) ;;
        cfg <+ cm_lift (getitem "config" decoder_config) ;;
        _ <+ new_decoder ty cfg ;;
        _ <+ cm_lift (get "requires_grad" decoder_config (PBool true)) ;;
        cm_ret ty
      else cm_lift (Err ValueError)
  | _ => cm_lift (Err ValueError)
  end.

(** The arguments [AudioAutoencoder(...)] receives. *)
Record autoencoder := mk_autoencoder {
  ae_encoder : string; ae_decoder : string;
  ae_latent_dim : pyval; ae_downsampling_ratio : pyval; ae_io_channels : pyval;
  ae_sample_rate : pyval; ae_in_channels : pyval; ae_out_channels : pyval;
  ae_soft_clip : pyval }.

(** [cond, msg] of the assertion on a required key *)
Definition required_message (k : string) : string := k ++ " must be specified in model config".

Definition create_autoencoder_from_config (config : pyval) : cm autoencoder :=
  ae_config <+ cm_lift (getitem "model" config) ;;
  ec <+ cm_lift (getitem "encoder" ae_config) ;;
  encoder <+ create_encoder_from_config ec ;;
  dc <+ cm_lift (getitem "decoder" ae_config) ;;
  decoder <+ create_decoder_from_config dc ;;
  bottleneck <+ cm_lift (get "bottleneck" ae_config PNone) ;;
  latent_dim <+ cm_lift (get "latent_dim" ae_config PNone) ;;
  _ <+ cm_lift (py_assert (negb (is_none latent_dim)) (required_message "latent_dim")) ;;
  downsampling_ratio <+ cm_lift (get "downsampling_ratio" ae_config PNone) ;;
  _ <+ cm_lift (py_assert (negb (is_none downsampling_ratio))
                  (required_message "downsampling_ratio")) ;;
  io_channels <+ cm_lift (get "io_channels" ae_config PNone) ;;
  _ <+ cm_lift (py_assert (negb (is_none io_channels)) (required_message "io_channels")) ;;
  sample_rate <+ cm_lift (get "sample_rate" config PNone) ;;
  _ <+ cm_lift (py_assert (negb (is_none sample_rate)) (required_message "sample_rate")) ;;
  in_channels <+ cm_lift (get "in_channels" ae_config PNone) ;;
  out_channels <+ cm_lift (get "out_channels" ae_config PNone) ;;
  pretransform <+ cm_lift (get "pretransform" ae_config PNone) ;;
  _ <+ (if is_none pretransform then cm_ret tt else new_pretransform pretransform sample_rate) ;;
  _ <+ (if is_none bottleneck then cm_ret tt else new_bottleneck bottleneck) ;;
  dcfg <+ cm_lift (getitem "decoder" ae_config) ;;
  soft_clip <+ cm_lift (get "soft_clip" dcfg (PBool false)) ;;
  _ <+ cm_log AllocAutoencoder ;;
  cm_ret (mk_autoencoder encoder decoder latent_dim downsampling_ratio io_channels
            sample_rate in_channels out_channels soft_clip).

(** The required keys in the order they are checked, with the values the
    checks read: the first three from [config["model"]], the last from the
    top level. *)
Definition required_fields (top ae : list (string * pyval)) : list (string * pyval) :=
  [("latent_dim", dict_get "latent_dim" ae PNone);
   ("downsampling_ratio", dict_get "downsampling_ratio" ae PNone);
   ("io_channels", dict_get "io_channels" ae PNone);
   ("sample_rate", dict_get "sample_rate" top PNone)].

End Factories.

(** Example configurations: an Oobleck encoder and decoder section, and a
    model config with all required keys but one. *)
Section ExampleConfigs.
Local Open Scope string_scope.

Definition oobleck_section : pyval :=
  PDict [("type", PStr "oobleck"); ("config", PDict [("channels", PInt 128)])].

Definition model_config_without (k : string) : list (string * pyval) :=
  filter (fun p => negb (String.eqb (fst p) k))
    [("encoder", oobleck_section); ("decoder", oobleck_section);
     ("latent_dim", PInt 64); ("downsampling_ratio", PInt 2048); ("io_channels", PInt 2)].

Definition config_without (k : string) : list (string * pyval) :=
  [("model", PDict (model_config_without k))] ++
  (if String.eqb k "sample_rate" then [] else [("sample_rate", PInt 44100)]).

(** Constructions that succeed, allocating one module each: what
    [OobleckEncoder(channels=128)] and [OobleckDecoder(channels=128)] do,
    and a pretransform and a bottleneck that build. *)
Definition example_import (m n : string) : res unit := Ok tt.

Definition example_new_encoder (ty : string) (cfg : pyval) : cm unit :=
  _ <+ cm_lift (as_kwargs cfg) ;; cm_log (AllocEncoder ty).

Definition example_new_decoder (ty : string) (cfg : pyval) : cm unit :=
  _ <+ cm_lift (as_kwargs cfg) ;; cm_log (AllocDecoder ty).

Definition example_new_pretransform (cfg sample_rate : pyval) : cm unit := cm_log AllocPretransform.

Definition example_new_bottleneck (cfg : pyval) : cm unit := cm_log AllocBottleneck.

End ExampleConfigs.

(** ** The Oobleck convolutional stacks, as shapes

    The layer classes of autoencoders.py are modelled by the module tree their
    constructors build and by the shape (channels, time length) their forward
    pass produces, one batch item at a time.  A constructor can raise (an
    index out of range, an assertion, an unknown name, a negative size) before
    any module exists: [init_res].  A forward pass can raise a torch shape error:
    [res] with [RuntimeError]. *)

Inductive init_error : Type :=
  | InitIndexError                       (* list index out of range *)
  | InitValueError                       (* unknown activation / padding_mode *)
  | InitRuntimeError                     (* torch.empty / torch.zeros of a negative size *)
  | InitAssertionError (msg : string).

Inductive init_res (A : Type) : Type :=
  | Init (a : A)
  | InitErr (e : init_error).
Arguments Init {A} a.
Arguments InitErr {A} e.

Definition init_bind {A B : Type} (m : init_res A) (k : A -> init_res B) : init_res B :=
  match m with Init a => k a | InitErr e => InitErr e end.

Notation "x <: m ;; k" := (init_bind m (fun x => k))
  (at level 61, m at next level, right associativity).

Fixpoint init_mapM {A B : Type} (f : A -> init_res B) (l : list A) : init_res (list B) :=
  match l with
  | [] => Init []
  | x :: r => y <: f x ;; ys <: init_mapM f r ;; Init (y :: ys)
  end.

(** [lst[i]] for [0 <= i] *)
Definition py_index {A : Type} (l : list A) (i : Z) : init_res A :=
  match nth_error l (Z.to_nat i) with
  | Some x => Init x
  | None => InitErr InitIndexError
  end.

(** [lst[-1]] *)
Definition py_last {A : Type} (l : list A) : init_res A :=
  match rev l with
  | x :: _ => Init x
  | [] => InitErr InitIndexError
  end.

(** [math.ceil(n / 2)] on an int *)
Definition ceil_half (n : Z) : Z := (n + 1) / 2.

Inductive activation : Type :=
  | ELU                       (* nn.ELU() *)
  | Snake (channels : Z)      (* SnakeBeta(channels) *)
  | Ident.                    (* nn.Identity() *)

#[warnings="-register-all"]
Inductive layer : Type :=
  | LAct (a : activation)
  | LAntialias (a : activation)                          (* Activation1d(act) *)
  | LTanh                                                (* nn.Tanh() *)
  | LConv (cin cout k s p d : Z) (padding_mode : string) (* WNConv1d, integer padding *)
  | LConvSame (cin cout k : Z)                           (* WNConv1d, padding="same", stride 1 *)
  | LConvT (cin cout k s p : Z)                          (* WNConvTranspose1d *)
  | LSConv (cin cout k s : Z)                            (* encodec SConv1d, causal *)
  | LSConvT (cin cout k s : Z)                           (* encodec SConvTranspose1d, causal *)
  | LUpsample (s : Z)                                    (* nn.Upsample(scale_factor=s, "nearest") *)
  | LTrim (p : Z)                                        (* TrimPadding(p) *)
  | LSeq (ls : list layer)                               (* nn.Sequential *)
  | LResidual (body : layer) (causal : bool) (p : Z).    (* ResidualUnit.forward *)

(** the dimensions of a parameter tensor: [torch.empty] and [torch.zeros]
    raise RuntimeError on a negative one *)
Definition dims_ok (dims : list Z) : bool := forallb (fun n => 0 <=? n) dims.

Section Oobleck.
Local Open Scope string_scope.

(** [SnakeBeta(channels)] allocates its parameters with [torch.zeros(channels)] *)
Definition get_activation (activation : string) (antialias : bool) (channels : Z)
  : init_res layer :=
  act <: (if String.eqb activation "elu" then Init ELU
          else if String.eqb activation "snake" then
            (if dims_ok [channels] then Init (Snake channels) else InitErr InitRuntimeError)
          else if String.eqb activation "none" then Init Ident
          else InitErr InitValueError) ;;
  Init (if antialias then LAntialias act else LAct act).

Definition valid_padding_modes : list string := ["zeros"; "reflect"; "replicate"; "circular"].

(** [WNConv1d(in, out, kernel_size=k, stride=s, padding=p, dilation=d,
    padding_mode=m)]: nn.Conv1d refuses an unknown padding mode, then
    allocates its weight [torch.empty((out, in, k))]. *)
Definition WNConv1d (cin cout k s p d : Z) (padding_mode : string) : init_res layer :=
  if negb (existsb (String.eqb padding_mode) valid_padding_modes) then InitErr InitValueError
  else if negb (dims_ok [cout; cin; k]) then InitErr InitRuntimeError
  else Init (LConv cin cout k s p d padding_mode).

Definition act_name (use_snake : bool) : string := if use_snake then "snake" else "elu".

Definition ResidualUnit (in_channels out_channels dilation kernel_size : Z)
  (use_snake antialias_activation causal : bool) (padding_mode : string) : init_res layer :=
  let padding := if causal then dilation * (kernel_size - 1)
                 else (dilation * (kernel_size - 1)) / 2 in
  a1 <: get_activation (act_name use_snake) antialias_activation out_channels ;;
  c1 <: WNConv1d in_channels out_channels kernel_size 1 padding dilation padding_mode ;;
  a2 <: get_activation (act_name use_snake) antialias_activation out_channels ;;
  c2 <: WNConv1d out_channels out_channels 1 1 0 1 "zeros" ;;
  Init (LResidual (LSeq [a1; c1; a2; c2]) causal padding).

Definition create_downsample_layer (in_channels out_channels stride : Z) (causal : bool)
  (padding_mode : string) : init_res layer :=
  if causal then
    (* SConv1d builds an nn.Conv1d: weight (out, in, k) *)
    if dims_ok [out_channels; in_channels; 2 * stride]
    then Init (LSConv in_channels out_channels (2 * stride) stride)
    else InitErr InitRuntimeError
  else WNConv1d in_channels out_channels (2 * stride) stride (ceil_half stride) 1 padding_mode.

(** ResidualUnit's own defaults: kernel_size=7, antialias_activation=False
    (EncoderBlock and DecoderBlock do not pass theirs on). *)
Definition EncoderBlock (in_channels out_channels stride : Z)
  (use_snake antialias_activation causal : bool) (padding_mode : string) : init_res layer :=
  r1 <: ResidualUnit in_channels in_channels 1 7 use_snake false causal padding_mode ;;
  r2 <: ResidualUnit in_channels in_channels 3 7 use_snake false causal padding_mode ;;
  r3 <: ResidualUnit in_channels in_channels 9 7 use_snake false causal padding_mode ;;
  a <: get_activation (act_name use_snake) antialias_activation in_channels ;;
  d <: create_downsample_layer in_channels out_channels stride causal padding_mode ;;
  Init (LSeq [r1; r2; r3; a; d]).

Definition create_upsample_layer (in_channels out_channels stride : Z)
  (use_nearest_upsample causal : bool) (padding_mode : string) : init_res layer :=
  if causal then
    if negb use_nearest_upsample then
      (* SConvTranspose1d builds an nn.ConvTranspose1d: weight (in, out, k) *)
      if dims_ok [in_channels; out_channels; 2 * stride]
      then Init (LSConvT in_channels out_channels (2 * stride) stride)
      else InitErr InitRuntimeError
    else InitErr (InitAssertionError "use_nearest_upsample is not implemented for causal mode!")
  else if use_nearest_upsample then
    (* nn.Upsample stores its scale factor; WNConv1d(..., padding="same") *)
    if dims_ok [out_channels; in_channels; 2 * stride]
    then Init (LSeq [LUpsample stride; LConvSame in_channels out_channels (2 * stride)])
    else InitErr InitRuntimeError
  else
    (* WNConvTranspose1d(..., padding_mode="zeros"): weight (in, out, k) *)
    if dims_ok [in_channels; out_channels; 2 * stride]
    then Init (LConvT in_channels out_channels (2 * stride) stride (ceil_half stride))
    else InitErr InitRuntimeError.

Definition DecoderBlock (in_channels out_channels stride : Z)
  (use_snake antialias_activation use_nearest_upsample causal : bool)
  (padding_mode : string) : init_res layer :=
  a <: get_activation (act_name use_snake) antialias_activation in_channels ;;
  u <: create_upsample_layer in_channels out_channels stride use_nearest_upsample causal
         padding_mode ;;
  r1 <: ResidualUnit out_channels out_channels 1 7 use_snake false causal padding_mode ;;
  r2 <: ResidualUnit out_channels out_channels 3 7 use_snake false causal padding_mode ;;
  r3 <: ResidualUnit out_channels out_channels 9 7 use_snake false causal padding_mode ;;
  Init (LSeq [a; u; r1; r2; r3]).

(** [conv] followed by [TrimPadding] when causal *)
Definition with_trim (causal : bool) (p : Z) (conv : layer) : layer :=
  if causal then LSeq [conv; LTrim p] else conv.

(** the loop ranges: [range(n)] and [range(n, 0, -1)]; a ValueError (zero
    step) cannot arise for these steps *)
Definition range_init (start stop step : Z) : init_res (list Z) :=
  match py_range start stop step with
  | Ok l => Init l
  | Err _ => InitErr InitValueError
  end.

Definition OobleckEncoder (in_channels channels latent_dim : Z) (c_mults0 strides : list Z)
  (use_snake antialias_activation causal : bool) (padding_mode : string) : init_res layer :=
  let c_mults := 1 :: c_mults0 in
  let depth := len c_mults in
  let first_padding := if causal then 6 else 3 in
  c0 <: py_index c_mults 0 ;;
  first_conv <: WNConv1d in_channels (c0 * channels) 7 1 first_padding 1 padding_mode ;;
  iters <: range_init 0 (depth - 1) 1 ;;
  blocks <: init_mapM (fun i =>
              ci <: py_index c_mults i ;;
              ci1 <: py_index c_mults (i + 1) ;;
              s <: py_index strides i ;;
              EncoderBlock (ci * channels) (ci1 * channels) s use_snake
                antialias_activation causal padding_mode) iters ;;
  let final_padding := if causal then 2 else 1 in
  cl <: py_last c_mults ;;
  final_conv <: WNConv1d (cl * channels) latent_dim 3 1 final_padding 1 padding_mode ;;
  a <: get_activation (act_name use_snake) antialias_activation (cl * channels) ;;
  Init (LSeq (with_trim causal first_padding first_conv :: blocks
              ++ [a; with_trim causal final_padding final_conv])).

Definition OobleckDecoder (out_channels channels latent_dim : Z) (c_mults0 strides : list Z)
  (use_snake antialias_activation use_nearest_upsample final_tanh causal : bool)
  (padding_mode : string) : init_res layer :=
  let c_mults := 1 :: c_mults0 in
  let depth := len c_mults in
  let first_padding := if causal then 6 else 3 in
  cl <: py_last c_mults ;;
  first_conv <: WNConv1d latent_dim (cl * channels) 7 1 first_padding 1 padding_mode ;;
  iters <: range_init (depth - 1) 0 (-1) ;;
  blocks <: init_mapM (fun i =>
              ci <: py_index c_mults i ;;
              ci1 <: py_index c_mults (i - 1) ;;
              s <: py_index strides (i - 1) ;;
              DecoderBlock (ci * channels) (ci1 * channels) s use_snake
                antialias_activation use_nearest_upsample causal padding_mode) iters ;;
  let final_padding := if causal then 6 else 3 in
  c0 <: py_index c_mults 0 ;;
  final_conv <: WNConv1d (c0 * channels) out_channels 7 1 final_padding 1 padding_mode ;;
  a <: get_activation (act_name use_snake) antialias_activation (c0 * channels) ;;
  Init (LSeq (with_trim causal first_padding first_conv :: blocks
              ++ [a; with_trim causal final_padding final_conv;
                  if final_tanh then LTanh else LAct Ident])).

End Oobleck.

(** *** Forward shapes

    A shape is [(channels, time length)] of one batch item.  The torch layers
    follow PyTorch's shape rules; the three layers that come from outside this
    repository (encodec's SConv1d and SConvTranspose1d, alias_free_torch's
    Activation1d) are parameters. *)

Definition shape : Type := (Z * Z)%type.

(** broadcasting of one dimension in [x + res] *)
Definition bdim (a b : Z) : res Z :=
  if a =? b then Ok a else if a =? 1 then Ok b else if b =? 1 then Ok a
  else Err RuntimeError.

Definition broadcast_add (x y : shape) : res shape :=
  c <- bdim (fst x) (fst y) ;; l <- bdim (snd x) (snd y) ;; Ok (c, l).

(** nn.Conv1d: channel check; F.conv1d refuses a stride or dilation below 1
    and, in mode "zeros" where it receives the padding itself, a negative
    padding; the other modes pad with F.pad (a negative padding crops) under
    their own checks; then [L_out = (L + 2p - d(k-1) - 1) / s + 1], which
    needs the padded input to be at least as long as the dilated kernel. *)
Definition conv1d_shape (cin cout k s p d : Z) (padding_mode : string) (x : shape)
  : res shape :=
  let '(c, L) := x in
  if negb (c =? cin) then Err RuntimeError
  else if (s <? 1) || (d <? 1) then Err RuntimeError
  else if String.eqb padding_mode "zeros" && (p <? 0) then Err RuntimeError
  else if String.eqb padding_mode "reflect" && negb (p <? L) then Err RuntimeError
  else if String.eqb padding_mode "circular" && (L <? p) then Err RuntimeError
  else if L + 2 * p <? d * (k - 1) + 1 then Err RuntimeError
  else Ok (cout, (L + 2 * p - d * (k - 1) - 1) / s + 1).

(** padding="same" (stride 1): the length is kept *)
Definition conv1d_same_shape (cin cout k : Z) (x : shape) : res shape :=
  let '(c, L) := x in
  if negb (c =? cin) then Err RuntimeError
  else if L <? 1 then Err RuntimeError
  else Ok (cout, L).

(** nn.ConvTranspose1d: channel check, no stride below 1 and no negative
    padding, then [L_out = (L - 1) s - 2p + (k - 1) + 1] *)
Definition conv_transpose1d_shape (cin cout k s p : Z) (x : shape) : res shape :=
  let '(c, L) := x in
  let Lout := (L - 1) * s - 2 * p + (k - 1) + 1 in
  if negb (c =? cin) then Err RuntimeError
  else if (s <? 1) || (p <? 0) then Err RuntimeError
  else if Lout <? 1 then Err RuntimeError
  else Ok (cout, Lout).

(** [x[:, :, :-p]] *)
Definition trim_shape (p : Z) (x : shape) : shape :=
  let '(a, b) := slice_bounds (snd x) 0 (- p) in (fst x, b - a).

Section Forward.
Variable sconv1d_shape : Z -> Z -> Z -> Z -> shape -> res shape.
Variable sconv_transpose1d_shape : Z -> Z -> Z -> Z -> shape -> res shape.
Variable antialias_shape : activation -> shape -> res shape.

Fixpoint forward (l : layer) (x : shape) : res shape :=
  match l with
  | LAct _ | LTanh => Ok x
  | LAntialias a => antialias_shape a x
  | LConv cin cout k s p d m => conv1d_shape cin cout k s p d m x
  | LConvSame cin cout k => conv1d_same_shape cin cout k x
  | LConvT cin cout k s p => conv_transpose1d_shape cin cout k s p x
  | LSConv cin cout k s => sconv1d_shape cin cout k s x
  | LSConvT cin cout k s => sconv_transpose1d_shape cin cout k s x
  | LUpsample s => Ok (fst x, snd x * s)
  | LTrim p => Ok (trim_shape p x)
  | LSeq ls =>
      (fix seq (ls : list layer) (x : shape) : res shape :=
         match ls with
         | [] => Ok x
         | l1 :: r => y <- forward l1 x ;; seq r y
         end) ls x
  | LResidual body causal p =>
      y <- forward body x ;;
      let y := if causal then trim_shape p y else y in
      broadcast_add y x
  end.

End Forward.

(** *** Vocabulary of the statements about these stacks *)

(** the padding [dilation * (kernel_size - 1)] for which a ResidualUnit keeps
    its length: positive when causal, even otherwise *)
Definition residual_ok (causal : bool) (e : Z) : bool :=
  if causal then 0 <? e else Z.even e.

(** the length a non-causal DecoderBlock of stride [s] makes of [M] frames *)
Definition upsampled (nearest : bool) (s M : Z) : Z :=
  if nearest || Z.even s then M * s else M * s - 1.

(** [np.prod] of a list of ints *)
Definition prodz (l : list Z) : Z := fold_right Z.mul 1 l.

(** [i, i-1, ..., i-n+1] *)
Fixpoint zdown (i : Z) (n : nat) : list Z :=
  match n with
  | O => []
  | S m => i :: zdown (i - 1) m
  end.

(** the strides for which a non-causal OobleckDecoder multiplies lengths
    exactly: positive, and even unless nearest-neighbour upsampling is used *)
Definition dec_stride_ok (nearest : bool) (s : Z) : Prop :=
  1 <= s /\ (nearest = true \/ Z.even s = true).

(** ** [AudioAutoencoder.preprocess_audio_list_for_encoder], on shapes

    An audio tensor is its shape (the list of its dimensions).  The resampler
    [T.Resample(in_sr, sample_rate)] and [prepare_audio] come from outside
    this repository and are parameters.  [self.min_length] is the model's
    [downsampling_ratio], taken positive here (Python's [%] by zero would
    raise). *)

Definition last_dim (sh : list Z) : Z := last sh 0.

(** [t.squeeze(0)] *)
Definition squeeze0 (sh : list Z) : list Z :=
  match sh with 1 :: r => r | _ => sh end.

(** [torch.stack(ts)] *)
Definition torch_stack (ts : list (list Z)) : res (list Z) :=
  match ts with
  | [] => Err RuntimeError
  | t :: rest =>
      if forallb (fun t' => if list_eq_dec Z.eq_dec t' t then true else false) rest
      then Ok (Z.of_nat (length ts) :: t) else Err RuntimeError
  end.

Fixpoint res_mapM {A B : Type} (f : A -> res B) (l : list A) : res (list B) :=
  match l with
  | [] => Ok []
  | x :: r => y <- f x ;; ys <- res_mapM f r ;; Ok (y :: ys)
  end.

Section Preprocess.
Local Open Scope string_scope.
Variable sample_rate : Z.
Variable min_length : positive.
(** [self.in_channels] *)
Variable in_channels : Z.
(** the shape [T.Resample(in_sr, sample_rate)(audio)] returns *)
Variable resample : Z -> Z -> list Z -> list Z.
(** [prepare_audio(audio, in_sr, target_sr, target_length, target_channels)] *)
Variable prepare_audio : list Z -> Z -> Z -> Z -> Z -> res (list Z).

Definition shape_message : string :=
  "Audio should be shape (Channels x Length) with no batch dimension".

Definition sr_list_message : string :=
  "list of sample rates must be the same length of audio_list".

(** the first loop: [(new_audio, max_length, in_sr)], the last bound to
    [None] while unassigned *)
Fixpoint resample_loop (audio_list : list (list Z)) (in_sr_list : list Z)
  (new_audio : list (list Z)) (max_length : Z) (last_sr : option Z)
  : res (list (list Z) * Z * option Z) :=
  match audio_list, in_sr_list with
  | audio :: audio_rest, in_sr :: sr_rest =>
      let audio :=
        if Nat.eqb (length audio) 3 && Z.eqb (hd 0 audio) 1 then tl audio
        else if Nat.eqb (length audio) 1 then 1 :: audio
        else audio in
      _ <- py_assert (Nat.eqb (length audio) 2) shape_message ;;
      let audio := if negb (Z.eqb in_sr sample_rate) then resample in_sr sample_rate audio
                   else audio in
      let max_length := if Z.ltb max_length (last_dim audio) then last_dim audio
                        else max_length in
      resample_loop audio_rest sr_rest (new_audio ++ [audio]) max_length (Some in_sr)
  | _, _ => Ok (new_audio, max_length, last_sr)
  end.

(** [in_sr_list] is an int ([inl]) or a list ([inr]) *)
Definition preprocess_audio_list_for_encoder (audio_list : list (list Z))
  (in_sr_list : Z + list Z) : res (list Z) :=
  let batch_size := length audio_list in
  let in_sr_list := match in_sr_list with
                    | inl sr => repeat sr batch_size
                    | inr l => l
                    end in
  _ <- py_assert (Nat.eqb (length in_sr_list) batch_size) sr_list_message ;;
  r <- resample_loop audio_list in_sr_list [] 0 None ;;
  let '(new_audio, max_length, in_sr) := r in
  let m := Z.pos min_length in
  let padded_audio_length := max_length + (m - max_length mod m) mod m in
  new_audio <- res_mapM (fun a =>
                 match in_sr with
                 | Some sr =>
                     p <- prepare_audio a sr sr padded_audio_length in_channels ;;
                     Ok (squeeze0 p)
                 | None => Err UnboundLocalError
                 end) new_audio ;;
  torch_stack new_audio.

(** [preprocess_audio_for_encoder(audio, in_sr)] *)
Definition preprocess_audio_for_encoder (audio : list Z) (in_sr : Z) : res (list Z) :=
  preprocess_audio_list_for_encoder [audio] (inr [in_sr]).

End Preprocess.

(** the shapes the shape assertion accepts: (C, L), (L,) and (1, C, L) *)
Definition audio_rank_ok (sh : list Z) : bool :=
  Nat.eqb (length sh) 2 || Nat.eqb (length sh) 1 ||
  (Nat.eqb (length sh) 3 && Z.eqb (hd 0 sh) 1).

(** the largest last dimension, starting from [max_length = 0] *)
Definition max_last (l : list (list Z)) : Z :=
  fold_left (fun m a => Z.max m (last_dim a)) l 0.

(** ** create_diffAE_from_config

    The diffusion-autoencoder factory allocates, besides what the
    autoencoder factories log, a diffusion model and the
    [DiffusionAutoencoder] itself. *)

Inductive dalloc : Type :=
  | DAlloc (a : alloc)
  | AllocDiffusion (ty : string)
  | AllocDiffusionAutoencoder.

Definition dm (A : Type) : Type := (list dalloc * res A)%type.

Definition dm_ret {A : Type} (a : A) : dm A := ([], Ok a).

Definition dm_lift {A : Type} (r : res A) : dm A := ([], r).

Definition dm_log (a : dalloc) : dm unit := ([a], Ok tt).

(** a factory of [cm], its allocations kept *)
Definition dm_of_cm {A : Type} (m : cm A) : dm A := (map DAlloc (fst m), snd m).

Definition dm_bind {A B : Type} (m : dm A) (k : A -> dm B) : dm B :=
  match m with
  | (l1, Ok a) => let (l2, r) := k a in (l1 ++ l2, r)
  | (l1, Err e) => (l1, Err e)
  end.

Notation "x <~ m ;; k" := (dm_bind m (fun x => k))
  (at level 61, m at next level, right associativity).

(** [k in v]: a key of a dict, a substring of a str; other values raise *)
Definition py_contains (k : string) (v : pyval) : res bool :=
  match v with
  | PDict d => Ok (match dict_lookup k d with Some _ => true | None => false end)
  | PStr s => Ok (match String.index 0 k s with Some _ => true | None => false end)
  | _ => Err TypeError
  end.

(** [v == s] for a str [s] *)
Definition py_eq_str (v : pyval) (s : string) : bool :=
  match v with PStr t => String.eqb t s | _ => false end.

(** [diffusion_downsampling_ratio]: [(None,)], [np.prod(v)] or [1] *)
Inductive diffusion_ratio : Type :=
  | DRNone
  | DRProd (v : pyval)
  | DROne.

(** The arguments [DiffusionAutoencoder(...)] receives; the bottleneck and
    the pretransform by whether they are built. *)
Record diffusion_autoencoder := mk_diffusion_autoencoder {
  dae_encoder : option string; dae_decoder : option string;
  dae_diffusion : string;
  dae_io_channels : pyval; dae_sample_rate : pyval; dae_latent_dim : pyval;
  dae_downsampling_ratio : pyval;
  dae_diffusion_downsampling_ratio : diffusion_ratio;
  dae_bottleneck : bool; dae_pretransform : bool }.

Section DiffAE.
Local Open Scope string_scope.

Variable py_import : string -> string -> res unit.
Variable new_encoder new_decoder : string -> pyval -> cm unit.
Variable new_pretransform : pyval -> pyval -> cm unit.
Variable new_bottleneck : pyval -> cm unit.
(** DAU1DCondWrapper, UNet1DCondWrapper or DiTWrapper, for the diffusion
    type [ty], called with the keywords of [cfg] *)
Variable new_diffusion : string -> pyval -> dm unit.
(** [DiffusionAutoencoder(...)]: AudioAutoencoder's fields, then
    [min_length = downsampling_ratio * diffusion_downsampling_ratio] and the
    halving of the encoder's weights *)
Variable new_diffusion_autoencoder : diffusion_autoencoder -> dm unit.

Definition diffusion_types : list string := ["DAU1d"; "adp_1d"; "dit"].

Definition create_diffAE_from_config (config : pyval) : dm diffusion_autoencoder :=
  diffae_config <~ dm_lift (getitem "model" config) ;;
  has_encoder <~ dm_lift (py_contains "encoder" diffae_config) ;;
  encoder <~ (if has_encoder then
                ec <~ dm_lift (getitem "encoder" diffae_config) ;;
                e <~ dm_of_cm (create_encoder_from_config py_import new_encoder ec) ;;
                dm_ret (Some e)
              else dm_ret None) ;;
  has_decoder <~ dm_lift (py_contains "decoder" diffae_config) ;;
  decoder <~ (if has_decoder then
                dc <~ dm_lift (getitem "decoder" diffae_config) ;;
                d <~ dm_of_cm (create_decoder_from_config py_import new_decoder dc) ;;
                dm_ret (Some d)
              else dm_ret None) ;;
  dd <~ dm_lift (getitem "diffusion" diffae_config) ;;
  diffusion_model_type <~ dm_lift (getitem "type" dd) ;;
  (* [diffusion] is bound only in one of the three branches *)
  diffusion <~ (match diffusion_model_type with
                | PStr ty =>
                    if existsb (String.eqb ty) diffusion_types then
                      dd' <~ dm_lift (getitem "diffusion" diffae_config) ;;
                      cfg <~ dm_lift (getitem "config" dd') ;;
                      _ <~ new_diffusion ty cfg ;;
                      dm_ret (Some ty)
                    else dm_ret None
                | _ => dm_ret None
                end) ;;
  latent_dim <~ dm_lift (get "latent_dim" diffae_config PNone) ;;
  _ <~ dm_lift (py_assert (negb (is_none latent_dim)) (required_message "latent_dim")) ;;
  downsampling_ratio <~ dm_lift (get "downsampling_ratio" diffae_config PNone) ;;
  _ <~ dm_lift (py_assert (negb (is_none downsampling_ratio))
                  (required_message "downsampling_ratio")) ;;
  io_channels <~ dm_lift (get "io_channels" diffae_config PNone) ;;
  _ <~ dm_lift (py_assert (negb (is_none io_channels)) (required_message "io_channels")) ;;
  sample_rate <~ dm_lift (get "sample_rate" config PNone) ;;
  _ <~ dm_lift (py_assert (negb (is_none sample_rate)) (required_message "sample_rate")) ;;
  bottleneck <~ dm_lift (get "bottleneck" diffae_config PNone) ;;
  pretransform <~ dm_lift (get "pretransform" diffae_config PNone) ;;
  _ <~ (if is_none pretransform then dm_ret tt
        else dm_of_cm (new_pretransform pretransform sample_rate)) ;;
  _ <~ (if is_none bottleneck then dm_ret tt else dm_of_cm (new_bottleneck bottleneck)) ;;
  ratio <~ (if py_eq_str diffusion_model_type "DAU1d" then
              d1 <~ dm_lift (getitem "diffusion" diffae_config) ;;
              c1 <~ dm_lift (getitem "config" d1) ;;
              s <~ dm_lift (getitem "strides" c1) ;;
              dm_ret (DRProd s)
            else if py_eq_str diffusion_model_type "adp_1d" then
              d1 <~ dm_lift (getitem "diffusion" diffae_config) ;;
              c1 <~ dm_lift (getitem "config" d1) ;;
              f <~ dm_lift (getitem "factors" c1) ;;
              dm_ret (DRProd f)
            else if py_eq_str diffusion_model_type "dit" then dm_ret DROne
            else dm_ret DRNone) ;;
  match diffusion with
  | None => dm_lift (Err UnboundLocalError)
  | Some diff =>
      let dae := mk_diffusion_autoencoder encoder decoder diff io_channels sample_rate
                   latent_dim downsampling_ratio ratio
                   (negb (is_none bottleneck)) (negb (is_none pretransform)) in
      _ <~ new_diffusion_autoencoder dae ;;
      dm_ret dae
  end.

End DiffAE.

(** Example diffusion-autoencoder configurations: Oobleck encoder and
    decoder sections, a diffusion section of type [ty], a pretransform, and
    all required keys but [drop]. *)
Section DiffAEExampleConfigs.
Local Open Scope string_scope.

Definition diffusion_section (ty : string) : pyval :=
  PDict [("type", PStr ty); ("config", PDict [("io_channels", PInt 64)])].

Definition diffae_model_config (ty drop : string) : list (string * pyval) :=
  filter (fun p => negb (String.eqb (fst p) drop))
    [("encoder", oobleck_section); ("decoder", oobleck_section);
     ("diffusion", diffusion_section ty);
     ("latent_dim", PInt 64); ("downsampling_ratio", PInt 2048); ("io_channels", PInt 2);
     ("pretransform", PDict [("type", PStr "autoencoder")])].

Definition diffae_config (ty drop : string) : list (string * pyval) :=
  [("model", PDict (diffae_model_config ty drop))] ++
  (if String.eqb drop "sample_rate" then [] else [("sample_rate", PInt 44100)]).

(** a diffusion model and a DiffusionAutoencoder that build *)
Definition example_new_diffusion (ty : string) (cfg : pyval) : dm unit :=
  _ <~ dm_lift (as_kwargs cfg) ;; dm_log (AllocDiffusion ty).

Definition example_new_diffusion_autoencoder (dae : diffusion_autoencoder) : dm unit :=
  dm_log AllocDiffusionAutoencoder.

End DiffAEExampleConfigs.

(** the padding modes nn.Conv1d accepts *)
Definition valid_mode (m : string) : Prop :=
  existsb (String.eqb m) valid_padding_modes = true.

(** the reshaping at the top of the loop of preprocess_audio_list_for_encoder *)
Definition normalize_audio (audio : list Z) : list Z :=
  if Nat.eqb (length audio) 3 && Z.eqb (hd 0 audio) 1 then tl audio
  else if Nat.eqb (length audio) 1 then 1 :: audio
  else audio.


(** * Proofs *)

(** ** Python builtins *)

Lemma range_up_zgrid : forall n fuel cur stop step,
  0 < step -> (n <= fuel)%nat ->
  stop <= cur + Z.of_nat n * step ->
  (forall m, (m < n)%nat -> cur + Z.of_nat m * step < stop) ->
  range_up fuel cur stop step = zgrid cur step n.
Proof.
  induction n as [|n IH]; intros fuel cur stop step Hs Hf Hstop Hlt.
  - destruct fuel; simpl; [reflexivity|].
    destruct (cur <? stop) eqn:E; [apply Z.ltb_lt in E; lia | reflexivity].
  - destruct fuel as [|fuel]; [lia|]. simpl.
    assert (H0 := Hlt 0%nat ltac:(lia)). simpl in H0.
    replace (cur <? stop) with true by (symmetry; apply Z.ltb_lt; lia).
    f_equal. apply IH; try lia.
    intros m Hm. specialize (Hlt (S m) ltac:(lia)). lia.
Qed.

Lemma in_zgrid : forall n cur step x, 0 <= step ->
  In x (zgrid cur step n) -> cur <= x <= cur + (Z.of_nat n - 1) * step.
Proof.
  induction n as [|n IH]; intros cur step x Hs Hin; simpl in Hin; [contradiction|].
  destruct Hin as [<-|Hin].
  - nia.
  - apply IH in Hin; [|lia]. nia.
Qed.

Lemma length_zgrid : forall n cur step, length (zgrid cur step n) = n.
Proof. induction n; intros; simpl; [reflexivity | rewrite IHn; reflexivity]. Qed.

Lemma last_zgrid : forall {A : Type} (f : Z -> A) d n cur step,
  last (map f (zgrid cur step (S n))) d = f (cur + Z.of_nat n * step).
Proof.
  intros A f d. induction n as [|n IH]; intros cur step.
  - simpl. f_equal. lia.
  - specialize (IH (cur + step) step). cbn [zgrid map last] in IH |- *.
    rewrite IH. f_equal. lia.
Qed.

Lemma slice_bounds_in : forall len s e, 0 <= s <= e -> e <= len ->
  slice_bounds len s e = (s, e).
Proof.
  intros len s e H1 H2. unfold slice_bounds, norm_index.
  destruct (s <? 0) eqn:E1; [apply Z.ltb_lt in E1; lia|].
  destruct (e <? 0) eqn:E2; [apply Z.ltb_lt in E2; lia|].
  f_equal; lia.
Qed.

Lemma slice_bounds_tail : forall len c, 0 < c <= len ->
  slice_bounds len (- c) len = (len - c, len).
Proof.
  intros len c H. unfold slice_bounds, norm_index.
  destruct (- c <? 0) eqn:E1; [|apply Z.ltb_ge in E1; lia].
  destruct (len <? 0) eqn:E2; [apply Z.ltb_lt in E2; lia|].
  f_equal; lia.
Qed.

Lemma div_facts : forall a h, 0 < h -> 0 <= a ->
  0 <= a / h /\ a / h * h <= a < a / h * h + h.
Proof.
  intros a h Hh Ha.
  pose proof (Z.div_mod a h ltac:(lia)) as E.
  pose proof (Z.mod_pos_bound a h Hh) as B.
  pose proof (Z.div_pos a h Ha Hh). nia.
Qed.

(** The hop grid of the sliding window loop: indices [0, h, ..., k*h] with
    [k = (total - chunk) / h]. *)
Lemma py_range_grid : forall T Cw H, 0 < H -> 0 <= Cw <= T ->
  py_range 0 (T - Cw + 1) H = Ok (zgrid 0 H (S (Z.to_nat ((T - Cw) / H)))).
Proof.
  intros T Cw H HH HC.
  destruct (div_facts (T - Cw) H HH ltac:(lia)) as [Hk [Hlo Hhi]].
  unfold py_range.
  replace (H =? 0) with false by (symmetry; apply Z.eqb_neq; lia).
  replace (0 <? H) with true by (symmetry; apply Z.ltb_lt; lia).
  set (k := (T - Cw) / H) in *.
  assert (Ek : Z.of_nat (Z.to_nat k) = k) by (apply Z2Nat.id; lia).
  assert (k <= T - Cw) by nia.
  f_equal. apply range_up_zgrid.
  - exact HH.
  - lia.
  - rewrite Nat2Z.inj_succ, Ek. nia.
  - intros m Hm. assert (Z.of_nat m <= k) by lia. nia.
Qed.

Lemma chunk_windows_spec : forall T Cw H, 0 < H -> 0 < Cw <= T ->
  chunk_windows T Cw H =
  Ok (map (fun i => (i, i + Cw)) (zgrid 0 H (S (Z.to_nat ((T - Cw) / H))))
      ++ (if (T - Cw) / H * H + Cw =? T then [] else [(T - Cw, T)])).
Proof.
  intros T Cw H HH HC.
  destruct (div_facts (T - Cw) H HH ltac:(lia)) as [Hk [Hlo Hhi]].
  unfold chunk_windows. rewrite py_range_grid by lia. cbn [bind].
  rewrite last_zgrid.
  rewrite Z2Nat.id by lia.
  replace (map (fun i => slice_bounds T i (i + Cw)) _)
    with (map (fun i => (i, i + Cw)) (zgrid 0 H (S (Z.to_nat ((T - Cw) / H))))).
  2:{ apply map_ext_in. intros i Hi. apply in_zgrid in Hi; [|lia].
      rewrite Nat2Z.inj_succ, Z2Nat.id in Hi by lia.
      symmetry. apply slice_bounds_in; nia. }
  rewrite Z.add_0_l.
  destruct (_ =? T) eqn:E; simpl.
  - rewrite app_nil_r. reflexivity.
  - rewrite slice_bounds_tail by lia. reflexivity.
Qed.

Lemma take_range_length : forall {A : Type} (l : list A) a b,
  0 <= a <= b -> b <= Z.of_nat (length l) ->
  length (take_range l (a, b)) = Z.to_nat (b - a).
Proof.
  intros A l a b H1 H2. unfold take_range. simpl.
  rewrite length_firstn, length_skipn. lia.
Qed.

Lemma setitem_slice_in : forall {A : Type} (y v : list A) ts te,
  0 <= ts <= te -> te <= Z.of_nat (length y) ->
  Z.of_nat (length v) = te - ts ->
  setitem_slice y ts te v =
  Ok (firstn (Z.to_nat ts) y ++ v ++ skipn (Z.to_nat te) y, (ts, te)) /\
  length (firstn (Z.to_nat ts) y ++ v ++ skipn (Z.to_nat te) y) = length y.
Proof.
  intros A y v ts te H1 H2 H3. split.
  - unfold setitem_slice. rewrite slice_bounds_in by lia.
    replace (Z.of_nat (length v) =? te - ts) with true
      by (symmetry; apply Z.eqb_eq; lia).
    reflexivity.
  - rewrite !length_app, length_firstn, length_skipn. lia.
Qed.

(** ** The stitching loop *)

Section StitchRun.
Context {X Y : Type}.
Variable codec : list X -> list Y.
Variable place : Z -> Z -> Z * Z * Z * Z.
Variable ylen : Z.


Lemma stitch_run : forall chunks i y tr,
  (forall x, In x chunks -> Z.of_nat (length (codec x)) = ylen) ->
  (forall j, i <= j < i + Z.of_nat (length chunks) ->
     place_ok place ylen (Z.of_nat (length y)) j) ->
  exists y', stitch codec place chunks i y tr
             = Ok (y', tr ++ stitch_trace place ylen chunks i)
          /\ length y' = length y.
Proof.
  induction chunks as [|x rest IH]; intros i y tr Hlen Hok.
  - exists y. simpl. rewrite app_nil_r. auto.
  - cbn [stitch]. pose proof (Hlen x (or_introl eq_refl)) as Hx. rewrite Hx.
    specialize (Hok i) as Hi. unfold place_ok in Hi.
    destruct (place i ylen) as [[[ts te] cs] ce] eqn:Ep.
    cbn [length] in Hi. destruct (Hi ltac:(lia)) as (H1 & H2 & H3 & H4 & H5).
    assert (Hv : py_slice (codec x) cs ce = take_range (codec x) (cs, ce)).
    { unfold py_slice. rewrite slice_bounds_in by lia. reflexivity. }
    assert (Hvl : Z.of_nat (length (py_slice (codec x) cs ce)) = te - ts).
    { rewrite Hv, take_range_length by lia.
      lia. }
    destruct (setitem_slice_in y _ ts te ltac:(lia) ltac:(lia) Hvl) as [Hs Hl].
    rewrite Hs. cbn [bind].
    destruct (IH (i + 1) (firstn (Z.to_nat ts) y ++
                py_slice (codec x) cs ce ++ skipn (Z.to_nat te) y)
                (tr ++ [ECall x; EPaste ts te])) as [y' [Hr Hl']].
    + intros x' Hx'. apply Hlen. right. exact Hx'.
    + intros j Hj. unfold place_ok. rewrite Hl.
      specialize (Hok j). unfold place_ok in Hok. apply Hok.
      cbn [length] in *. lia.
    + exists y'. split; [|congruence].
      rewrite Hr. cbn [stitch_trace]. rewrite Ep.
      rewrite <- app_assoc. reflexivity.
Qed.

End StitchRun.

Lemma pastes_app : forall {X : Type} (t1 t2 : list (event X)),
  pastes (t1 ++ t2) = pastes t1 ++ pastes t2.
Proof. intros. unfold pastes. apply flat_map_app. Qed.

Lemma calls_app : forall {X : Type} (t1 t2 : list (event X)),
  calls (t1 ++ t2) = calls t1 ++ calls t2.
Proof. intros. unfold calls. apply flat_map_app. Qed.

Lemma pastes_stitch_trace : forall {X : Type} place ylen (chunks : list (list X)) i,
  pastes (stitch_trace place ylen chunks i)
  = map (fun j => let '(ts, te, _, _) := place j ylen in (ts, te))
        (zseq i (length chunks)).
Proof.
  intros X place ylen chunks. induction chunks as [|x rest IH]; intros i.
  - reflexivity.
  - cbn [stitch_trace length zseq map].
    destruct (place i ylen) as [[[ts te] cs] ce].
    cbn [pastes flat_map app]. f_equal. apply IH.
Qed.

Lemma calls_stitch_trace : forall {X : Type} place ylen (chunks : list (list X)) i,
  calls (stitch_trace place ylen chunks i) = chunks.
Proof.
  intros X place ylen chunks. induction chunks as [|x rest IH]; intros i.
  - reflexivity.
  - cbn [stitch_trace]. destruct (place i ylen) as [[[ts te] cs] ce].
    cbn [calls flat_map app]. f_equal. apply IH.
Qed.

(** ** Ranges laid along the output *)

Lemma covers_from_writes : forall rs s e x,
  covers_from s rs e -> s <= x < e -> (1 <= writes rs x)%nat.
Proof.
  induction rs as [|[a b] t IH]; intros s e x Hc Hx; simpl in Hc.
  - lia.
  - destruct Hc as [Ha Hc]. unfold writes. cbn [filter fst snd].
    destruct (x <? b) eqn:Eb.
    + replace (a <=? x) with true by (symmetry; apply Z.leb_le; lia).
      simpl. lia.
    + apply Z.ltb_ge in Eb.
      assert (1 <= writes t x)%nat by (apply (IH (Z.max s b) e); [exact Hc | lia]).
      unfold writes in H. destruct (a <=? x); simpl; lia.
Qed.

Lemma tiles_from_writes : forall rs s e x,
  tiles_from s rs e ->
  (x < s -> writes rs x = 0%nat) /\ (s <= x < e -> writes rs x = 1%nat).
Proof.
  induction rs as [|[a b] t IH]; intros s e x Ht; simpl in Ht.
  - subst. split; intros; [reflexivity | lia].
  - destruct Ht as (-> & Hsb & Ht).
    destruct (IH b e x Ht) as [IH0 IH1].
    unfold writes in *. cbn [filter fst snd]. split.
    + intros Hx. replace (s <=? x) with false by (symmetry; apply Z.leb_gt; lia).
      simpl. apply IH0. lia.
    + intros Hx. destruct (x <? b) eqn:Eb.
      * apply Z.ltb_lt in Eb.
        replace (s <=? x) with true by (symmetry; apply Z.leb_le; lia).
        simpl. rewrite IH0 by lia. reflexivity.
      * apply Z.ltb_ge in Eb. rewrite andb_false_r. apply IH1. lia.
Qed.

Lemma covers_zseq : forall (f : Z -> Z * Z) m a s e,
  (0 < m)%nat -> fst (f a) <= s -> e <= snd (f (a + Z.of_nat m - 1)) ->
  (forall j, a <= j -> j + 1 < a + Z.of_nat m -> fst (f (j + 1)) <= snd (f j)) ->
  covers_from s (map f (zseq a m)) e.
Proof.
  intros f m. induction m as [|m IH]; intros a s e Hm Hs He Hl; [lia|].
  cbn [zseq map]. destruct (f a) as [fa fb] eqn:Ef. simpl in Hs. split; [exact Hs|].
  destruct m as [|m].
  - simpl. replace (a + Z.of_nat 1 - 1) with a in He by lia.
    rewrite Ef in He. simpl in He. lia.
  - apply IH; [lia | | | ].
    + specialize (Hl a ltac:(lia) ltac:(lia)). rewrite Ef in Hl. simpl in Hl. lia.
    + replace (a + 1 + Z.of_nat (S m) - 1) with (a + Z.of_nat (S (S m)) - 1) by lia.
      exact He.
    + intros j Hj1 Hj2. apply Hl; lia.
Qed.

Lemma tiles_zseq : forall (f : Z -> Z * Z) m a s e,
  (0 < m)%nat -> fst (f a) = s -> e = snd (f (a + Z.of_nat m - 1)) ->
  (forall j, a <= j < a + Z.of_nat m -> fst (f j) <= snd (f j)) ->
  (forall j, a <= j -> j + 1 < a + Z.of_nat m -> fst (f (j + 1)) = snd (f j)) ->
  tiles_from s (map f (zseq a m)) e.
Proof.
  intros f m. induction m as [|m IH]; intros a s e Hm Hs He Hle Hl; [lia|].
  cbn [zseq map]. specialize (Hle a) as Ha.
  destruct (f a) as [fa fb] eqn:Ef. simpl in Hs, Ha. subst fa.
  split; [reflexivity|]. split; [apply Ha; lia|].
  destruct m as [|m].
  - simpl. replace (a + Z.of_nat 1 - 1) with a in He by lia.
    rewrite Ef in He. simpl in He. auto.
  - apply IH; [lia | | | | ].
    + specialize (Hl a ltac:(lia) ltac:(lia)). rewrite Ef in Hl. exact Hl.
    + replace (a + 1 + Z.of_nat (S m) - 1) with (a + Z.of_nat (S (S m)) - 1) by lia.
      exact He.
    + intros j Hj. apply Hle. lia.
    + intros j Hj1 Hj2. apply Hl; lia.
Qed.

(** ** Geometry of the trimmed target ranges *)

Section Geometry.
Variables sc C O L : Z.
Hypothesis Hsc : 1 <= sc.
Hypothesis HO : 0 <= O.
Hypothesis HOC : O < C.
Hypothesis HCL : C <= L.

Lemma half_facts : 0 <= O / 2 /\ 2 * (O / 2) <= O /\ (O mod 2 = 0 -> 2 * (O / 2) = O).
Proof.
  pose proof (Z.div_mod O 2 ltac:(lia)). pose proof (Z.mod_pos_bound O 2 ltac:(lia)).
  pose proof (Z.div_pos O 2 HO ltac:(lia)). lia.
Qed.

Lemma num_windows_facts :
  let H := C - O in let k := (L - C) / H in
  let n := num_windows L C H in
  0 <= k /\ k * H <= L - C < k * H + H /\
  ((k * H + C = L /\ n = k + 1) \/ (k * H + C <> L /\ n = k + 2)).
Proof.
  intros H k n.
  destruct (div_facts (L - C) H ltac:(lia) ltac:(lia)) as [Hk [Hlo Hhi]].
  fold k in Hk, Hlo, Hhi. split; [lia|]. split; [lia|].
  unfold n, num_windows. fold k.
  destruct (Z.eqb_spec (k * H + C) L); [left | right]; lia.
Qed.

Lemma target_range_bounds : forall j,
  let H := C - O in let n := num_windows L C H in
  0 <= j < n ->
  let '(a, b) := target_range sc H C (O / 2) L n j in
  0 <= a <= b /\ b <= sc * L /\
  b - a = sc * (C - (if 0 <? j then O / 2 else 0)
                  - (if j <? n - 1 then O / 2 else 0)).
Proof.
  intros j H n Hj.
  destruct half_facts as (Hol0 & Hol1 & _).
  pose proof num_windows_facts as NW. cbv zeta in NW. fold H in NW. fold n in NW.
  destruct NW as (Hk & (Hlo & Hhi) & Hn).
  set (k := (L - C) / H) in *. set (ol := O / 2) in *.
  unfold target_range.
  destruct (Z.eqb_spec j (n - 1)) as [Ej|Ej].
  - replace (j <? n - 1) with false by (symmetry; apply Z.ltb_ge; lia).
    destruct (Z.ltb_spec 0 j).
    + repeat split; nia.
    + assert (k = 0 /\ L = C) by (destruct Hn; nia).
      repeat split; nia.
  - replace (j <? n - 1) with true by (symmetry; apply Z.ltb_lt; lia).
    assert (Hjk : j <= k) by (destruct Hn; lia).
    assert (j * H <= k * H) by (apply Z.mul_le_mono_nonneg_r; lia).
    destruct (Z.ltb_spec 0 j); repeat split; nia.
Qed.

Lemma target_range_covers :
  let H := C - O in let n := num_windows L C H in
  covers_from 0 (map (target_range sc H C (O / 2) L n) (zseq 0 (Z.to_nat n))) (sc * L).
Proof.
  intros H n.
  destruct half_facts as (Hol0 & Hol1 & _).
  pose proof num_windows_facts as NW. cbv zeta in NW. fold H in NW. fold n in NW.
  destruct NW as (Hk & (Hlo & Hhi) & Hn).
  set (k := (L - C) / H) in *. set (ol := O / 2) in *.
  assert (Hn1 : 1 <= n) by (destruct Hn; lia).
  apply covers_zseq; rewrite ?Z2Nat.id by lia.
  - lia.
  - unfold target_range. destruct (Z.eqb_spec 0 (n - 1)) as [E|E]; simpl.
    + assert (k = 0 /\ L = C) by (destruct Hn; nia). nia.
    + lia.
  - unfold target_range. rewrite Z.eqb_refl. simpl. lia.
  - intros j Hj0 Hj1.
    unfold target_range.
    replace (j =? n - 1) with false by (symmetry; apply Z.eqb_neq; lia).
    replace (0 <? j + 1) with true by (symmetry; apply Z.ltb_lt; lia).
    assert (Hlink : (j + 1) * H + ol <= j * H + C - ol) by (unfold H; nia).
    destruct (Z.eqb_spec (j + 1) (n - 1)) as [E|E];
      cbn [fst snd]; apply Z.mul_le_mono_nonneg_l; lia.
Qed.

Lemma target_range_tiles :
  let H := C - O in let n := num_windows L C H in
  O mod 2 = 0 -> (L - C) mod H = 0 ->
  tiles_from 0 (map (target_range sc H C (O / 2) L n) (zseq 0 (Z.to_nat n))) (sc * L).
Proof.
  intros H n Hev Hal.
  destruct half_facts as (Hol0 & Hol1 & Hol2). specialize (Hol2 Hev).
  pose proof num_windows_facts as NW. cbv zeta in NW. fold H in NW. fold n in NW.
  destruct NW as (Hk & (Hlo & Hhi) & Hn).
  set (k := (L - C) / H) in *. set (ol := O / 2) in *.
  assert (HkL : k * H + C = L).
  { pose proof (Z.div_mod (L - C) H ltac:(unfold H; lia)). fold k in H0. lia. }
  assert (En : n = k + 1) by (destruct Hn; lia).
  apply tiles_zseq; rewrite ?Z2Nat.id by lia.
  - lia.
  - unfold target_range. destruct (Z.eqb_spec 0 (n - 1)) as [E|E]; simpl.
    + assert (k = 0) by lia. subst k. nia.
    + lia.
  - unfold target_range. rewrite Z.eqb_refl. simpl. lia.
  - intros j Hj. pose proof (target_range_bounds j Hj) as Hb.
    cbv zeta in Hb. fold H in Hb. fold n in Hb. fold ol in Hb.
    destruct (target_range sc H C ol L n j). simpl. lia.
  - intros j Hj0 Hj1.
    unfold target_range.
    replace (j =? n - 1) with false by (symmetry; apply Z.eqb_neq; lia).
    replace (0 <? j + 1) with true by (symmetry; apply Z.ltb_lt; lia).
    destruct (Z.eqb_spec (j + 1) (n - 1)) as [E|E]; cbn [fst snd]; f_equal.
    + assert (j = k - 1) by lia. subst j. unfold H in *. nia.
    + unfold H in *. nia.
Qed.

End Geometry.

(** ** The windows of the sliding procedure *)

Lemma chunk_windows_facts : forall T Cw H, 0 < H -> 0 < Cw <= T ->
  exists ws, chunk_windows T Cw H = Ok ws
    /\ Z.of_nat (length ws) = num_windows T Cw H
    /\ (forall w, In w ws -> 0 <= fst w /\ snd w = fst w + Cw /\ snd w <= T)
    /\ last ws (0, 0) = (T - Cw, T).
Proof.
  intros T Cw H HH HC.
  destruct (div_facts (T - Cw) H HH ltac:(lia)) as [Hk [Hlo Hhi]].
  rewrite chunk_windows_spec by lia.
  eexists. split; [reflexivity|].
  set (k := (T - Cw) / H) in *.
  assert (Ek : Z.of_nat (Z.to_nat k) = k) by (apply Z2Nat.id; lia).
  split; [|split].
  - rewrite length_app, length_map, length_zgrid.
    unfold num_windows. fold k.
    destruct (k * H + Cw =? T); simpl; lia.
  - intros w Hw. apply in_app_or in Hw. destruct Hw as [Hw|Hw].
    + apply in_map_iff in Hw. destruct Hw as [i [<- Hi]].
      apply in_zgrid in Hi; [|lia]. rewrite Nat2Z.inj_succ, Ek in Hi.
      simpl. nia.
    + destruct (k * H + Cw =? T); simpl in Hw; [contradiction|].
      destruct Hw as [<-|[]]. simpl. lia.
  - destruct (k * H + Cw =? T) eqn:E.
    + rewrite app_nil_r, last_zgrid. apply Z.eqb_eq in E. f_equal; lia.
    + apply last_last.
Qed.

(** ** Placement arithmetic *)

Lemma encode_place_eq : forall R C O L n j, 0 < R -> j < n ->
  encode_place n (C * R - O * R) (C * R) (O * R) R L j C =
  (fst (target_range 1 (C - O) C (O / 2) L n j),
   snd (target_range 1 (C - O) C (O / 2) L n j),
   (if 0 <? j then O / 2 else 0),
   C - (if j <? n - 1 then O / 2 else 0)).
Proof.
  intros R C O L n j HR Hj. unfold encode_place, target_range.
  replace (j * (C * R - O * R) / R) with (j * (C - O))
    by (replace (j * (C * R - O * R)) with (j * (C - O) * R) by ring;
        rewrite Z.div_mul by lia; reflexivity).
  rewrite !Z.div_mul by lia.
  destruct (Z.eqb_spec j (n - 1)); destruct (Z.ltb_spec 0 j);
    destruct (Z.ltb_spec j (n - 1)); try (exfalso; lia); cbn [fst snd];
    rewrite !pair_equal_spec; repeat split; lia.
Qed.

Lemma decode_place_eq : forall R C O L n j, j < n ->
  decode_place n (C - O) C O R (L * R) j (C * R) =
  (fst (target_range R (C - O) C (O / 2) L n j),
   snd (target_range R (C - O) C (O / 2) L n j),
   (if 0 <? j then O / 2 * R else 0),
   C * R - (if j <? n - 1 then O / 2 * R else 0)).
Proof.
  intros R C O L n j Hj. unfold decode_place, target_range.
  destruct (Z.eqb_spec j (n - 1)); destruct (Z.ltb_spec 0 j);
    destruct (Z.ltb_spec j (n - 1)); try (exfalso; lia); cbn [fst snd];
    rewrite !pair_equal_spec; repeat split; ring.
Qed.

Lemma num_windows_scale : forall R T Cw Ov, 0 < R -> Ov < Cw ->
  num_windows (T * R) (Cw * R) (Cw * R - Ov * R) = num_windows T Cw (Cw - Ov).
Proof.
  intros R T Cw Ov HR HO. unfold num_windows.
  replace (T * R - Cw * R) with ((T - Cw) * R) by ring.
  replace (Cw * R - Ov * R) with ((Cw - Ov) * R) by ring.
  rewrite Z.div_mul_cancel_r by lia.
  set (k := (T - Cw) / (Cw - Ov)).
  replace (k * ((Cw - Ov) * R) + Cw * R =? T * R) with (k * (Cw - Ov) + Cw =? T).
  - reflexivity.
  - destruct (Z.eqb_spec (k * (Cw - Ov) + Cw) T);
      destruct (Z.eqb_spec (k * ((Cw - Ov) * R) + Cw * R) (T * R)); try reflexivity.
    + exfalso. apply n. rewrite <- e. ring.
    + exfalso. apply n. apply (Z.mul_reg_r _ _ R); [lia|]. rewrite <- e. ring.
Qed.

Lemma in_zseq : forall n i j, In j (zseq i n) -> i <= j < i + Z.of_nat n.
Proof.
  induction n as [|n IH]; intros i j Hj; simpl in Hj; [contradiction|].
  destruct Hj as [<-|Hj]; [lia|]. apply IH in Hj. lia.
Qed.

Lemma stack_check_uniform : forall {A : Type} (chunks : list (list A)) m,
  chunks <> [] -> (forall c, In c chunks -> length c = m) -> stack_check chunks = Ok tt.
Proof.
  intros A [|c rest] m Hne Hl; [contradiction|].
  unfold stack_check.
  replace (forallb _ rest) with true; [reflexivity|].
  symmetry. apply forallb_forall. intros c' Hc'. apply Nat.eqb_eq.
  rewrite (Hl c' (or_intror Hc')), (Hl c (or_introl eq_refl)). reflexivity.
Qed.

Lemma windows_take_length : forall {A : Type} (l : list A) ws Cw,
  (forall w, In w ws -> 0 <= fst w /\ snd w = fst w + Cw /\ snd w <= Z.of_nat (length l)) ->
  0 <= Cw ->
  forall c, In c (map (take_range l) ws) -> Z.of_nat (length c) = Cw.
Proof.
  intros A l ws Cw Hw HC c Hc. apply in_map_iff in Hc. destruct Hc as [[a b] [<- Hin]].
  destruct (Hw _ Hin) as (H1 & H2 & H3). simpl in *.
  rewrite take_range_length by lia. lia.
Qed.

(** The chunked encode path, when the input holds [L] latent frames' worth
    of samples, runs to the end and pastes the ranges [target_range]. *)
Lemma encode_run : forall (Aud Lat : Type) (zl : Lat) R
  (enc : list Aud -> list Lat) (audio : list Aud) O C L,
  0 < R -> 0 <= O < C -> C <= L -> Z.of_nat (length audio) = L * R ->
  (forall x, Z.of_nat (length (enc x)) = Z.of_nat (length x) / R) ->
  exists y tr,
    encode_audio_chunked Aud Lat zl R enc audio O C = Ok (y, tr)
    /\ Z.of_nat (length y) = L
    /\ pastes tr = map (target_range 1 (C - O) C (O / 2) L (num_windows L C (C - O)))
                       (zseq 0 (Z.to_nat (num_windows L C (C - O)))).
Proof.
  intros Aud Lat zl R enc audio O C L HR HO HCL Hlen Henc.
  destruct (chunk_windows_facts (L * R) (C * R) (C * R - O * R))
    as (ws & Hws & Hn & Hin & _); [nia | nia |].
  rewrite num_windows_scale in Hn by lia.
  set (n := num_windows L C (C - O)) in *.
  assert (Hn1 : 1 <= n).
  { unfold n, num_windows. pose proof (div_facts (L - C) (C - O) ltac:(lia) ltac:(lia)).
    destruct (_ =? L); lia. }
  assert (Hc : forall c, In c (map (take_range audio) ws) -> Z.of_nat (length c) = C * R).
  { apply windows_take_length; [rewrite Hlen; exact Hin | nia]. }
  unfold encode_audio_chunked. cbv zeta. rewrite Hlen, Hws. cbn [bind].
  rewrite (stack_check_uniform _ (Z.to_nat (C * R))).
  2:{ destruct ws; simpl in Hn; [lia | discriminate]. }
  2:{ intros c Hc'. apply Hc in Hc'. lia. }
  cbn [bind]. rewrite length_map, Hn, Z.div_mul by lia.
  destruct (stitch_run enc (encode_place n (C * R - O * R) (C * R) (O * R) R L) C
              (map (take_range audio) ws) 0 (repeat zl (Z.to_nat L)) [])
    as [y [Hrun Hy]].
  - intros x Hx. rewrite Henc, Hc by exact Hx. apply Z.div_mul. lia.
  - intros j Hj. rewrite length_map, Hn in Hj.
    rewrite repeat_length, Z2Nat.id by lia. unfold place_ok.
    rewrite encode_place_eq by lia.
    pose proof (target_range_bounds 1 C O L ltac:(lia) ltac:(lia) ltac:(lia) ltac:(lia) j) as Hb.
    cbv zeta in Hb. fold n in Hb. specialize (Hb ltac:(lia)).
    destruct (target_range 1 (C - O) C (O / 2) L n j) as [a b]. cbn [fst snd].
    pose proof (half_facts O ltac:(lia)) as (Hh0 & Hh1 & _).
    destruct (0 <? j), (j <? n - 1); lia.
  - exists y. eexists. split; [exact Hrun|]. split.
    + rewrite Hy, repeat_length. lia.
    + rewrite pastes_app, pastes_stitch_trace. simpl.
      rewrite length_map. replace (length ws) with (Z.to_nat n) by lia.
      apply map_ext_in. intros j Hj. apply in_zseq in Hj.
      rewrite encode_place_eq by lia.
      destruct (target_range 1 (C - O) C (O / 2) L n j). reflexivity.
Qed.

(** The chunked decode path on [L] latent frames runs to the end and pastes
    the ranges [target_range] scaled by [R]. *)
Lemma decode_run : forall (Aud Lat : Type) (za : Aud) R
  (dec : list Lat -> list Aud) (latents : list Lat) O C L,
  0 < R -> 0 <= O < C -> C <= L -> Z.of_nat (length latents) = L ->
  (forall x, Z.of_nat (length (dec x)) = Z.of_nat (length x) * R) ->
  exists y tr,
    decode_audio_chunked Aud Lat za R dec latents O C = Ok (y, tr)
    /\ Z.of_nat (length y) = L * R
    /\ pastes tr = map (target_range R (C - O) C (O / 2) L (num_windows L C (C - O)))
                       (zseq 0 (Z.to_nat (num_windows L C (C - O)))).
Proof.
  intros Aud Lat za R dec latents O C L HR HO HCL Hlen Hdec.
  destruct (chunk_windows_facts L C (C - O))
    as (ws & Hws & Hn & Hin & _); [lia | lia |].
  set (n := num_windows L C (C - O)) in *.
  assert (Hn1 : 1 <= n).
  { unfold n, num_windows. pose proof (div_facts (L - C) (C - O) ltac:(lia) ltac:(lia)).
    destruct (_ =? L); lia. }
  assert (Hc : forall c, In c (map (take_range latents) ws) -> Z.of_nat (length c) = C).
  { apply windows_take_length; [rewrite Hlen; exact Hin | lia]. }
  unfold decode_audio_chunked. cbv zeta. rewrite Hlen, Hws. cbn [bind].
  rewrite (stack_check_uniform _ (Z.to_nat C)).
  2:{ destruct ws; simpl in Hn; [lia | discriminate]. }
  2:{ intros c Hc'. apply Hc in Hc'. lia. }
  cbn [bind]. rewrite length_map, Hn.
  destruct (stitch_run dec (decode_place n (C - O) C O R (L * R)) (C * R)
              (map (take_range latents) ws) 0 (repeat za (Z.to_nat (L * R))) [])
    as [y [Hrun Hy]].
  - intros x Hx. rewrite Hdec, Hc by exact Hx. reflexivity.
  - intros j Hj. rewrite length_map, Hn in Hj.
    rewrite repeat_length, Z2Nat.id by nia. unfold place_ok.
    rewrite decode_place_eq by lia.
    pose proof (target_range_bounds R C O L ltac:(lia) ltac:(lia) ltac:(lia) ltac:(lia) j) as Hb.
    cbv zeta in Hb. fold n in Hb. specialize (Hb ltac:(lia)).
    destruct (target_range R (C - O) C (O / 2) L n j) as [a b]. cbn [fst snd].
    pose proof (half_facts O ltac:(lia)) as (Hh0 & Hh1 & _).
    destruct (0 <? j), (j <? n - 1); nia.
  - exists y. eexists. split; [exact Hrun|]. split.
    + rewrite Hy, repeat_length. nia.
    + rewrite pastes_app, pastes_stitch_trace. simpl.
      rewrite length_map. replace (length ws) with (Z.to_nat n) by lia.
      apply map_ext_in. intros j Hj. apply in_zseq in Hj.
      rewrite decode_place_eq by lia.
      destruct (target_range R (C - O) C (O / 2) L n j). reflexivity.
Qed.

(** ** Shape of any run of the stitching loop *)

Lemma stitch_shape : forall {X Y : Type} (codec : list X -> list Y) place
  chunks i y tr0 y' tr,
  stitch codec place chunks i y tr0 = Ok (y', tr) ->
  exists ps, length ps = length chunks /\ tr = tr0 ++ call_paste_trace chunks ps.
Proof.
  intros X Y codec place chunks. induction chunks as [|x rest IH];
    intros i y tr0 y' tr Hrun; cbn [stitch] in Hrun.
  - injection Hrun as <- <-. exists []. split; [reflexivity|].
    unfold call_paste_trace. simpl. rewrite app_nil_r. reflexivity.
  - destruct (place i (Z.of_nat (length (codec x)))) as [[[ts te] cs] ce].
    destruct (setitem_slice y ts te (py_slice (codec x) cs ce)) as [[y1 [a b]]|e];
      cbn [bind] in Hrun; [|discriminate].
    destruct (IH _ _ _ _ _ Hrun) as [ps [Hl ->]].
    exists ((a, b) :: ps). split; [simpl; lia|].
    unfold call_paste_trace. cbn [combine flat_map fst snd].
    rewrite <- app_assoc. reflexivity.
Qed.

Lemma calls_call_paste_trace : forall {X : Type} (chunks : list (list X)) ps,
  length ps = length chunks -> calls (call_paste_trace chunks ps) = chunks.
Proof.
  intros X chunks. induction chunks as [|x rest IH]; intros [|p ps] Hl;
    simpl in Hl; try discriminate; [reflexivity|].
  unfold call_paste_trace in *. cbn [combine flat_map app calls].
  cbn [calls flat_map app] in IH. f_equal. apply IH. lia.
Qed.

Lemma range_up_empty : forall fuel cur stop step,
  stop <= cur -> range_up fuel cur stop step = [].
Proof.
  intros [|fuel] cur stop step H; simpl; [reflexivity|].
  replace (cur <? stop) with false by (symmetry; apply Z.ltb_ge; lia).
  reflexivity.
Qed.

Lemma chunk_windows_short : forall T Cw H, 0 < H -> T < Cw ->
  chunk_windows T Cw H = Err UnboundLocalError.
Proof.
  intros T Cw H HH HT. unfold chunk_windows, py_range.
  replace (H =? 0) with false by (symmetry; apply Z.eqb_neq; lia).
  replace (0 <? H) with true by (symmetry; apply Z.ltb_lt; lia).
  cbn [bind]. rewrite range_up_empty by lia. reflexivity.
Qed.

Lemma target_ranges_props : forall sc C O L,
  1 <= sc -> 0 <= O < C -> C <= L ->
  let rs := map (target_range sc (C - O) C (O / 2) L (num_windows L C (C - O)))
                (zseq 0 (Z.to_nat (num_windows L C (C - O)))) in
  (forall r, In r rs -> 0 <= fst r <= snd r /\ snd r <= sc * L)
  /\ (forall x, 0 <= x < sc * L -> (1 <= writes rs x)%nat)
  /\ (O mod 2 = 0 -> (L - C) mod (C - O) = 0 ->
      forall x, 0 <= x < sc * L -> writes rs x = 1%nat).
Proof.
  intros sc C O L Hsc HO HCL rs. split; [|split].
  - intros r Hr. unfold rs in Hr. apply in_map_iff in Hr.
    destruct Hr as [j [<- Hj]]. apply in_zseq in Hj.
    assert (Hn : 0 <= num_windows L C (C - O)).
    { unfold num_windows. pose proof (div_facts (L - C) (C - O) ltac:(lia) ltac:(lia)).
      destruct (_ =? L); lia. }
    rewrite Z2Nat.id in Hj by lia.
    pose proof (target_range_bounds sc C O L Hsc ltac:(lia) ltac:(lia) HCL j) as Hb.
    cbv zeta in Hb. specialize (Hb ltac:(lia)).
    destruct (target_range _ _ _ _ _ _ j). simpl. lia.
  - intros x Hx. apply (covers_from_writes rs 0 (sc * L)); [|lia].
    apply (target_range_covers sc C O L); lia.
  - intros Hev Hal x Hx.
    apply (tiles_from_writes rs 0 (sc * L) x); [|lia].
    apply (target_range_tiles sc C O L); lia.
Qed.

(** * Claims about the chunked paths *)

(** C1 (amended). For [0 <= overlap < chunk_size <= total_length] (in latent
    frames; the encoder input holds [total_length * R] samples), the chunked
    encode_audio and decode_audio run to the end; every trimmed paste lies in
    [[0, output_length)], every output index is written at least once, and
    when the overlap is even and the hop grid ends exactly at [total_length]
    every output index is written exactly once. *)
Theorem stitch_covers_output : forall (Aud Lat : Type) (zl : Lat) (za : Aud) R
  (enc : list Aud -> list Lat) (dec : list Lat -> list Aud) audio latents O C L,
  0 < R -> 0 <= O < C -> C <= L ->
  Z.of_nat (length audio) = L * R -> Z.of_nat (length latents) = L ->
  (forall x, Z.of_nat (length (enc x)) = Z.of_nat (length x) / R) ->
  (forall x, Z.of_nat (length (dec x)) = Z.of_nat (length x) * R) ->
  (exists y tr, encode_audio_chunked Aud Lat zl R enc audio O C = Ok (y, tr)
     /\ Z.of_nat (length y) = L
     /\ (forall r, In r (pastes tr) -> 0 <= fst r <= snd r /\ snd r <= L)
     /\ (forall x, 0 <= x < L -> (1 <= writes (pastes tr) x)%nat)
     /\ (O mod 2 = 0 -> (L - C) mod (C - O) = 0 ->
         forall x, 0 <= x < L -> writes (pastes tr) x = 1%nat))
  /\ (exists y tr, decode_audio_chunked Aud Lat za R dec latents O C = Ok (y, tr)
     /\ Z.of_nat (length y) = L * R
     /\ (forall r, In r (pastes tr) -> 0 <= fst r <= snd r /\ snd r <= L * R)
     /\ (forall x, 0 <= x < L * R -> (1 <= writes (pastes tr) x)%nat)
     /\ (O mod 2 = 0 -> (L - C) mod (C - O) = 0 ->
         forall x, 0 <= x < L * R -> writes (pastes tr) x = 1%nat)).
Proof.
  intros Aud Lat zl za R enc dec audio latents O C L HR HO HCL Ha Hl Henc Hdec.
  split.
  - destruct (encode_run Aud Lat zl R enc audio O C L HR HO HCL Ha Henc)
      as (y & tr & Hrun & Hy & Hp).
    exists y, tr. rewrite Hp.
    destruct (target_ranges_props 1 C O L ltac:(lia) HO HCL) as (P1 & P2 & P3).
    rewrite Z.mul_1_l in P1, P2, P3.
    split; [exact Hrun|]. split; [exact Hy|]. split; [exact P1|]. split; [exact P2 | exact P3].
  - destruct (decode_run Aud Lat za R dec latents O C L HR HO HCL Hl Hdec)
      as (y & tr & Hrun & Hy & Hp).
    exists y, tr. rewrite Hp.
    destruct (target_ranges_props R C O L ltac:(lia) HO HCL) as (P1 & P2 & P3).
    rewrite (Z.mul_comm R L) in P1, P2, P3.
    split; [exact Hrun|]. split; [exact Hy|]. split; [exact P1|]. split; [exact P2 | exact P3].
Qed.

Lemma stitch_covers_output_witness :
  (0 < 10 /\ 0 <= 8 < 32 /\ 32 <= 100) /\
  (exists y tr, encode_audio_chunked Z Z 0 10 (toy_encode 10) (repeat 0 1000) 8 32
                = Ok (y, tr)
     /\ Z.of_nat (length y) = 100
     /\ (forall r, In r (pastes tr) -> 0 <= fst r <= snd r /\ snd r <= 100)
     /\ (forall x, 0 <= x < 100 -> (1 <= writes (pastes tr) x)%nat)
     /\ (8 mod 2 = 0 -> (100 - 32) mod (32 - 8) = 0 ->
         forall x, 0 <= x < 100 -> writes (pastes tr) x = 1%nat)).
Proof.
  split; [lia|].
  refine (proj1 (stitch_covers_output Z Z 0 0 10 (toy_encode 10) (toy_decode 10)
            (repeat 0 1000) (repeat 0 100) 8 32 100 _ _ _ _ _ _ _)).
  - lia.
  - lia.
  - lia.
  - rewrite repeat_length. reflexivity.
  - rewrite repeat_length. reflexivity.
  - intros x. unfold toy_encode. rewrite length_firstn.
    rewrite Nat.min_l by (apply Nat.Div0.div_le_upper_bound; lia).
    rewrite Nat2Z.inj_div. reflexivity.
  - intros x. unfold toy_decode. induction x as [|v x IH]; [reflexivity|].
    cbn [flat_map]. rewrite length_app, repeat_length, Nat2Z.inj_add, IH.
    cbn [length]. lia.
Defined.

(** C1 (counterexample). decode_audio on 5 latent frames with
    [chunk_size = 4], [overlap = 0] ([R = 1]) pastes [[0, 4)] and then the
    right-aligned [[1, 5)]: output index 1 is written twice. *)
Lemma stitch_double_write :
  exists y tr,
    decode_audio_chunked Z Z 0 1 (toy_decode 1) [0; 1; 2; 3; 4] 0 4 = Ok (y, tr)
    /\ pastes tr = [(0, 4); (1, 5)]
    /\ writes (pastes tr) 1 = 2%nat.
Proof. do 2 eexists. split; [reflexivity | split; reflexivity]. Qed.

(** ** Helpers for the remaining chunked-path claims *)

Lemma encode_chunked_shape : forall (Aud Lat : Type) (zl : Lat) R enc
  (audio : list Aud) O C y tr,
  encode_audio_chunked Aud Lat zl R enc audio O C = Ok (y, tr) ->
  exists ws ps,
    chunk_windows (Z.of_nat (length audio)) (C * R) (C * R - O * R) = Ok ws
    /\ length ps = length ws
    /\ tr = call_paste_trace (map (take_range audio) ws) ps.
Proof.
  intros Aud Lat zl R enc audio O C y tr Hrun.
  unfold encode_audio_chunked in Hrun. cbv zeta in Hrun.
  destruct (chunk_windows _ _ _) as [ws|e] eqn:Hws; cbn [bind] in Hrun; [|discriminate].
  destruct (stack_check _) as [u|e]; cbn [bind] in Hrun; [|discriminate].
  destruct (stitch_shape _ _ _ _ _ _ _ _ Hrun) as [ps [Hl Htr]].
  exists ws, ps. rewrite length_map in Hl. auto.
Qed.

Lemma decode_chunked_shape : forall (Aud Lat : Type) (za : Aud) R dec
  (latents : list Lat) O C y tr,
  decode_audio_chunked Aud Lat za R dec latents O C = Ok (y, tr) ->
  exists ws ps,
    chunk_windows (Z.of_nat (length latents)) C (C - O) = Ok ws
    /\ length ps = length ws
    /\ tr = call_paste_trace (map (take_range latents) ws) ps.
Proof.
  intros Aud Lat za R dec latents O C y tr Hrun.
  unfold decode_audio_chunked in Hrun. cbv zeta in Hrun.
  destruct (chunk_windows _ _ _) as [ws|e] eqn:Hws; cbn [bind] in Hrun; [|discriminate].
  destruct (stack_check _) as [u|e]; cbn [bind] in Hrun; [|discriminate].
  destruct (stitch_shape _ _ _ _ _ _ _ _ Hrun) as [ps [Hl Htr]].
  exists ws, ps. rewrite length_map in Hl. auto.
Qed.

Lemma one_window : forall Cw H, 0 < H -> 0 < Cw -> chunk_windows Cw Cw H = Ok [(0, Cw)].
Proof.
  intros Cw H HH HC. unfold chunk_windows, py_range.
  replace (H =? 0) with false by (symmetry; apply Z.eqb_neq; lia).
  replace (0 <? H) with true by (symmetry; apply Z.ltb_lt; lia).
  replace (Cw - Cw + 1 - 0) with 1 by lia. cbn [bind].
  replace (Cw - Cw + 1) with 1 by lia. simpl.
  rewrite slice_bounds_in by lia. rewrite Z.eqb_refl. reflexivity.
Qed.

Lemma take_range_all : forall {A : Type} (l : list A),
  take_range l (0, Z.of_nat (length l)) = l.
Proof.
  intros A l. unfold take_range. simpl. rewrite Z.sub_0_r, Nat2Z.id.
  apply firstn_all.
Qed.

Lemma stitch_single : forall {X Y : Type} (codec : list X -> list Y) place x y ylen,
  Z.of_nat (length (codec x)) = ylen -> Z.of_nat (length y) = ylen ->
  place 0 ylen = (0, ylen, 0, ylen) ->
  stitch codec place [x] 0 y [] = Ok (codec x, [ECall x; EPaste 0 ylen]).
Proof.
  intros X Y codec place x y ylen Hc Hy Hp. cbn [stitch]. rewrite Hc, Hp.
  assert (Hv : py_slice (codec x) 0 ylen = codec x).
  { unfold py_slice. rewrite Hc, slice_bounds_in by lia. rewrite <- Hc.
    apply take_range_all. }
  rewrite Hv.
  destruct (setitem_slice_in y (codec x) 0 ylen ltac:(lia) ltac:(lia) ltac:(lia))
    as [Hs _].
  rewrite Hs. cbn [bind].
  replace (firstn (Z.to_nat 0) y ++ codec x ++ skipn (Z.to_nat ylen) y) with (codec x).
  - reflexivity.
  - rewrite skipn_all2 by lia. simpl. rewrite app_nil_r. reflexivity.
Qed.

(** C2 (amended). In chunked mode encode_audio (resp. decode_audio) invokes
    [self.encode] (resp. [self.decode]) once per window, on that window
    alone, inside the stitching loop: every successful run's trace is, for
    each window in order, one codec call on the window followed by the paste
    of its output. *)
Theorem chunked_codec_call_per_window : forall (Aud Lat : Type) (zl : Lat) (za : Aud) R
  enc dec (audio : list Aud) (latents : list Lat) O C ye tre yd trd,
  encode_audio_chunked Aud Lat zl R enc audio O C = Ok (ye, tre) ->
  decode_audio_chunked Aud Lat za R dec latents O C = Ok (yd, trd) ->
  (exists ws ps,
     chunk_windows (Z.of_nat (length audio)) (C * R) (C * R - O * R) = Ok ws
     /\ length ps = length ws
     /\ tre = call_paste_trace (map (take_range audio) ws) ps
     /\ calls tre = map (take_range audio) ws)
  /\ (exists ws ps,
     chunk_windows (Z.of_nat (length latents)) C (C - O) = Ok ws
     /\ length ps = length ws
     /\ trd = call_paste_trace (map (take_range latents) ws) ps
     /\ calls trd = map (take_range latents) ws).
Proof.
  intros Aud Lat zl za R enc dec audio latents O C ye tre yd trd He Hd. split.
  - destruct (encode_chunked_shape _ _ _ _ _ _ _ _ _ _ He) as (ws & ps & Hw & Hl & Ht).
    exists ws, ps. repeat split; auto.
    rewrite Ht. apply calls_call_paste_trace. rewrite length_map. exact Hl.
  - destruct (decode_chunked_shape _ _ _ _ _ _ _ _ _ _ Hd) as (ws & ps & Hw & Hl & Ht).
    exists ws, ps. repeat split; auto.
    rewrite Ht. apply calls_call_paste_trace. rewrite length_map. exact Hl.
Qed.

Lemma chunked_codec_call_per_window_witness :
  encode_audio_chunked Z Z 0 1 (toy_encode 1) [0; 1; 2; 3; 4] 0 4
    = Ok ([0; 1; 2; 3; 4], [ECall [0; 1; 2; 3]; EPaste 0 4; ECall [1; 2; 3; 4]; EPaste 1 5])
  /\ decode_audio_chunked Z Z 0 1 (toy_decode 1) [0; 1; 2; 3; 4] 0 4
    = Ok ([0; 1; 2; 3; 4], [ECall [0; 1; 2; 3]; EPaste 0 4; ECall [1; 2; 3; 4]; EPaste 1 5])
  /\ calls [ECall [0; 1; 2; 3]; EPaste 0 4; ECall [1; 2; 3; 4]; EPaste 1 5]
     = map (take_range [0; 1; 2; 3; 4]) [(0, 4); (1, 5)].
Proof.
  assert (He : encode_audio_chunked Z Z 0 1 (toy_encode 1) [0; 1; 2; 3; 4] 0 4
    = Ok ([0; 1; 2; 3; 4], [ECall [0; 1; 2; 3]; EPaste 0 4; ECall [1; 2; 3; 4]; EPaste 1 5]))
    by reflexivity.
  assert (Hd : decode_audio_chunked Z Z 0 1 (toy_decode 1) [0; 1; 2; 3; 4] 0 4
    = Ok ([0; 1; 2; 3; 4], [ECall [0; 1; 2; 3]; EPaste 0 4; ECall [1; 2; 3; 4]; EPaste 1 5]))
    by reflexivity.
  split; [exact He|]. split; [exact Hd|].
  destruct (chunked_codec_call_per_window Z Z 0 0 1 (toy_encode 1) (toy_decode 1)
              [0; 1; 2; 3; 4] [0; 1; 2; 3; 4] 0 4 _ _ _ _ He Hd)
    as [(ws & ps & Hw & _ & _ & Hc) _].
  vm_compute in Hw. injection Hw as <-. exact Hc.
Defined.

(** C2 (counterexample). On 5 frames with [chunk_size = 4], [overlap = 0],
    the chunked paths make two codec calls, one per window, each followed by
    its paste, instead of one batched call covering both windows. *)
Lemma chunked_two_codec_calls :
  encode_audio_chunked Z Z 0 1 (toy_encode 1) [0; 1; 2; 3; 4] 0 4
    = Ok ([0; 1; 2; 3; 4], [ECall [0; 1; 2; 3]; EPaste 0 4; ECall [1; 2; 3; 4]; EPaste 1 5])
  /\ decode_audio_chunked Z Z 0 1 (toy_decode 1) [0; 1; 2; 3; 4] 0 4
    = Ok ([0; 1; 2; 3; 4], [ECall [0; 1; 2; 3]; EPaste 0 4; ECall [1; 2; 3; 4]; EPaste 1 5]).
Proof. split; reflexivity. Qed.

(** C3 (amended). With 1000 samples, [R = 10], [chunk_size = 32] and
    [overlap = 8] latent frames, the hop grid is [0, 24, 48] (72 + 32 > 100)
    and the right-aligned window starts at 68: exactly 4 windows. Their 4
    trimmed pastes are [[0,28), [28,52), [52,76), [72,100)]: they cover
    [[0,100)] with no gap, and [[72,76)] is written twice. *)
Theorem spec_scenario_four_chunks : forall (Aud Lat : Type) (zl : Lat)
  (enc : list Aud -> list Lat) (audio : list Aud),
  Z.of_nat (length audio) = 1000 ->
  (forall x, Z.of_nat (length (enc x)) = Z.of_nat (length x) / 10) ->
  chunk_windows 1000 320 240 = Ok [(0, 320); (240, 560); (480, 800); (680, 1000)]
  /\ exists y tr,
       encode_audio_chunked Aud Lat zl 10 enc audio 8 32 = Ok (y, tr)
       /\ length (calls tr) = 4%nat
       /\ pastes tr = [(0, 28); (28, 52); (52, 76); (72, 100)]
       /\ (forall x, 0 <= x < 100 -> (1 <= writes (pastes tr) x)%nat)
       /\ (forall x, 72 <= x < 76 -> writes (pastes tr) x = 2%nat).
Proof.
  intros Aud Lat zl enc audio Ha Henc.
  assert (Hw : chunk_windows 1000 320 240
               = Ok [(0, 320); (240, 560); (480, 800); (680, 1000)]) by reflexivity.
  split; [exact Hw|].
  destruct (encode_run Aud Lat zl 10 enc audio 8 32 100 ltac:(lia) ltac:(lia)
              ltac:(lia) ltac:(lia) Henc) as (y & tr & Hrun & _ & Hp).
  assert (Hm : map (target_range 1 (32 - 8) 32 (8 / 2) 100 (num_windows 100 32 (32 - 8)))
                   (zseq 0 (Z.to_nat (num_windows 100 32 (32 - 8))))
               = [(0, 28); (28, 52); (52, 76); (72, 100)]) by reflexivity.
  rewrite Hm in Hp.
  destruct (encode_chunked_shape _ _ _ _ _ _ _ _ _ _ Hrun) as (ws & ps & Hws & Hl & Ht).
  rewrite Ha in Hws. vm_compute in Hws. injection Hws as <-.
  exists y, tr. split; [exact Hrun|]. split; [|split; [exact Hp|split]].
  - rewrite Ht, calls_call_paste_trace by (rewrite length_map; exact Hl).
    reflexivity.
  - destruct (target_ranges_props 1 32 8 100 ltac:(lia) ltac:(lia) ltac:(lia))
      as (_ & P2 & _).
    rewrite Hm in P2. rewrite Hp. intros x Hx. apply P2. lia.
  - intros x Hx. rewrite Hp.
    assert (x = 72 \/ x = 73 \/ x = 74 \/ x = 75) as Hx' by lia.
    destruct Hx' as [ -> | [ -> | [ -> | -> ] ] ]; reflexivity.
Qed.

Lemma spec_scenario_four_chunks_witness :
  Z.of_nat (length (repeat 0 1000)) = 1000 /\
  chunk_windows 1000 320 240 = Ok [(0, 320); (240, 560); (480, 800); (680, 1000)].
Proof.
  split; [reflexivity|].
  refine (proj1 (spec_scenario_four_chunks Z Z 0 (toy_encode 10) (repeat 0 1000) _ _)).
  - reflexivity.
  - intros x. unfold toy_encode. rewrite length_firstn.
    rewrite Nat.min_l by (apply Nat.Div0.div_le_upper_bound; lia).
    rewrite Nat2Z.inj_div. reflexivity.
Defined.

(** C3 (counterexample). In the spec's scenario the window grid is
    [0, 240, 480] samples (latent starts [0, 24, 48]) then the right-aligned
    680 (latent 68): four windows and four codec calls, not five. *)
Lemma spec_scenario_not_five_chunks :
  chunk_windows 1000 320 240 = Ok [(0, 320); (240, 560); (480, 800); (680, 1000)]
  /\ exists y tr,
       encode_audio_chunked Z Z 0 10 (toy_encode 10) (repeat 0 1000) 8 32 = Ok (y, tr)
       /\ length (calls tr) = 4%nat
       /\ pastes tr = [(0, 28); (28, 52); (52, 76); (72, 100)].
Proof.
  split; [reflexivity|]. do 2 eexists. split; [reflexivity|]. split; reflexivity.
Qed.

(** C5. For [0 <= overlap < chunk_size <= total_length] the window list is
    nonempty, every window is a full [chunk_size] long, and the last window
    ends exactly at [total_length]; when the hop grid's last window stops
    short of the end, exactly one right-aligned window
    [[total_length - chunk_size, total_length)] is appended to the grid's
    windows, and otherwise the grid's windows are kept as they are. (Chunked
    encode_audio calls this with [chunk_size * R] and [overlap * R], which
    satisfy the same hypotheses.) *)
Theorem last_window_right_aligned : forall T C O, 0 <= O < C -> C <= T ->
  exists grid ws,
    py_range 0 (T - C + 1) (C - O) = Ok grid
    /\ chunk_windows T C (C - O) = Ok ws
    /\ ws <> []
    /\ last ws (0, 0) = (T - C, T)
    /\ (forall w, In w ws -> 0 <= fst w /\ snd w = fst w + C /\ snd w <= T)
    /\ (last grid 0 + C <> T -> ws = map (fun i => (i, i + C)) grid ++ [(T - C, T)])
    /\ (last grid 0 + C = T -> ws = map (fun i => (i, i + C)) grid).
Proof.
  intros T C O HO HCT.
  destruct (chunk_windows_facts T C (C - O) ltac:(lia) ltac:(lia))
    as (ws & Hws & _ & Hin & Hlast).
  pose proof (chunk_windows_spec T C (C - O) ltac:(lia) ltac:(lia)) as Hspec.
  rewrite Hws in Hspec. injection Hspec as Hspec.
  set (k := (T - C) / (C - O)) in *.
  exists (zgrid 0 (C - O) (S (Z.to_nat k))), ws.
  assert (Hg : last (zgrid 0 (C - O) (S (Z.to_nat k))) 0 = k * (C - O)).
  { rewrite <- (map_id (zgrid _ _ _)), last_zgrid.
    destruct (div_facts (T - C) (C - O) ltac:(lia) ltac:(lia)) as [Hk _].
    fold k in Hk. rewrite Z2Nat.id by lia. lia. }
  split; [apply py_range_grid; lia|].
  split; [exact Hws|].
  split; [rewrite Hspec; simpl; discriminate|].
  split; [exact Hlast|].
  split; [exact Hin|].
  rewrite Hg. split; intros E.
  - rewrite Hspec. replace (k * (C - O) + C =? T) with false
      by (symmetry; apply Z.eqb_neq; exact E). reflexivity.
  - rewrite Hspec. replace (k * (C - O) + C =? T) with true
      by (symmetry; apply Z.eqb_eq; exact E). rewrite app_nil_r. reflexivity.
Qed.

Lemma last_window_right_aligned_witness :
  0 <= 8 < 32 /\ 32 <= 100 /\
  chunk_windows 100 32 (32 - 8) = Ok [(0, 32); (24, 56); (48, 80); (68, 100)].
Proof.
  split; [lia|]. split; [lia|].
  destruct (last_window_right_aligned 100 32 8 ltac:(lia) ltac:(lia))
    as (grid & ws & Hg & Hws & _ & _ & _ & Hshort & _).
  vm_compute in Hg. injection Hg as <-.
  rewrite Hws. f_equal. apply Hshort. vm_compute. discriminate.
Defined.

Lemma toy_encode_length : forall R, (0 < R)%nat -> forall x : list Z,
  Z.of_nat (length (toy_encode R x)) = Z.of_nat (length x) / Z.of_nat R.
Proof.
  intros R HR x. unfold toy_encode. rewrite length_firstn.
  rewrite Nat.min_l by (apply Nat.Div0.div_le_upper_bound; nia).
  apply Nat2Z.inj_div.
Qed.

Lemma toy_decode_length : forall R (x : list Z),
  Z.of_nat (length (toy_decode R x)) = Z.of_nat (length x) * Z.of_nat R.
Proof.
  intros R x. unfold toy_decode. induction x as [|v x IH]; [reflexivity|].
  cbn [flat_map length]. rewrite length_app, repeat_length. lia.
Qed.

(** ** Short inputs and single-window inputs *)

Lemma encode_chunked_short : forall (Aud Lat : Type) (zl : Lat) R enc
  (audio : list Aud) O C,
  0 < R -> O < C -> Z.of_nat (length audio) < C * R ->
  encode_audio_chunked Aud Lat zl R enc audio O C = Err UnboundLocalError.
Proof.
  intros Aud Lat zl R enc audio O C HR HO Hlen.
  unfold encode_audio_chunked. cbv zeta.
  rewrite chunk_windows_short by nia. reflexivity.
Qed.

Lemma decode_chunked_short : forall (Aud Lat : Type) (za : Aud) R dec
  (latents : list Lat) O C,
  O < C -> Z.of_nat (length latents) < C ->
  decode_audio_chunked Aud Lat za R dec latents O C = Err UnboundLocalError.
Proof.
  intros Aud Lat za R dec latents O C HO Hlen.
  unfold decode_audio_chunked. cbv zeta.
  rewrite chunk_windows_short by lia. reflexivity.
Qed.

Lemma encode_place_single : forall R C O,
  encode_place 1 (C * R - O * R) (C * R) (O * R) R C 0 C = (0, C, 0, C).
Proof. intros R C O. unfold encode_place. cbn. rewrite Z.sub_diag. reflexivity. Qed.

Lemma decode_place_single : forall R C O,
  decode_place 1 (C - O) C O R (C * R) 0 (C * R) = (0, C * R, 0, C * R).
Proof. intros R C O. unfold decode_place. cbn. rewrite Z.sub_diag. reflexivity. Qed.

Lemma encode_chunked_single : forall (Aud Lat : Type) (zl : Lat) R enc
  (audio : list Aud) O C,
  0 < R -> 0 <= O < C ->
  (forall x, Z.of_nat (length (enc x)) = Z.of_nat (length x) / R) ->
  Z.of_nat (length audio) = C * R ->
  encode_audio_chunked Aud Lat zl R enc audio O C
    = Ok (enc audio, [ECall audio; EPaste 0 C]).
Proof.
  intros Aud Lat zl R enc audio O C HR HO Henc Ha.
  assert (Ht : take_range audio (0, C * R) = audio)
    by (rewrite <- Ha; apply take_range_all).
  assert (Hy : C * R / R = C) by (apply Z.div_mul; lia).
  unfold encode_audio_chunked. cbv zeta. rewrite Ha.
  rewrite one_window by nia. cbn [bind map]. rewrite Ht.
  cbn [stack_check forallb]. cbn [bind length Z.of_nat Pos.of_succ_nat]. rewrite Hy.
  apply stitch_single.
  - rewrite Henc, Ha. exact Hy.
  - rewrite repeat_length. apply Z2Nat.id. lia.
  - apply encode_place_single.
Qed.

Lemma decode_chunked_single : forall (Aud Lat : Type) (za : Aud) R dec
  (latents : list Lat) O C,
  0 < R -> 0 <= O < C ->
  (forall x, Z.of_nat (length (dec x)) = Z.of_nat (length x) * R) ->
  Z.of_nat (length latents) = C ->
  decode_audio_chunked Aud Lat za R dec latents O C
    = Ok (dec latents, [ECall latents; EPaste 0 (C * R)]).
Proof.
  intros Aud Lat za R dec latents O C HR HO Hdec Hl.
  assert (Ht : take_range latents (0, C) = latents)
    by (rewrite <- Hl; apply take_range_all).
  unfold decode_audio_chunked. cbv zeta. rewrite Hl.
  rewrite one_window by lia. cbn [bind map]. rewrite Ht.
  cbn [stack_check forallb]. cbn [bind length Z.of_nat Pos.of_succ_nat].
  apply stitch_single.
  - rewrite Hdec, Hl. reflexivity.
  - rewrite repeat_length. apply Z2Nat.id. nia.
  - apply decode_place_single.
Qed.

(** C8 (corrected). When the time axis is shorter than the (converted)
    [chunk_size], the hop grid [range(0, total_size - chunk_size + 1, hop_size)]
    is empty, the loop variable [i] is never bound, and the test
    [i + chunk_size != total_size] raises UnboundLocalError: both chunked
    paths fail before any codec call, but with a NameError about [i], not an
    assertion naming the violated precondition. *)
Theorem chunked_short_input_unbound_local : forall (Aud Lat Info : Type)
  (zl : Lat) (za : Aud) R enc dec (enc_kw : kwargs -> list Aud -> enc_ret Lat Info)
  dec_kw (audio : list Aud) (latents : list Lat) O C kw,
  0 < R -> 0 <= O < C ->
  Z.of_nat (length audio) < C * R -> Z.of_nat (length latents) < C ->
  encode_audio Aud Lat Info zl R enc enc_kw audio true O C kw = Err UnboundLocalError
  /\ decode_audio Aud Lat za R dec dec_kw latents true O C kw = Err UnboundLocalError.
Proof.
  intros Aud Lat Info zl za R enc dec enc_kw dec_kw audio latents O C kw HR HO Ha Hl.
  split.
  - unfold encode_audio. cbn [negb].
    rewrite encode_chunked_short by lia. reflexivity.
  - unfold decode_audio. cbn [negb]. apply decode_chunked_short; lia.
Qed.

Lemma chunked_short_input_unbound_local_witness :
  encode_audio Z Z unit 0 10 (toy_encode 10) (toy_encode_kw 10) (repeat 0 100) true 8 32 []
    = Err UnboundLocalError
  /\ decode_audio Z Z 0 10 (toy_decode 10) (fun _ => toy_decode 10) (repeat 0 10) true 8 32 []
    = Err UnboundLocalError.
Proof.
  apply (chunked_short_input_unbound_local Z Z unit 0 0 10 (toy_encode 10) (toy_decode 10)
           (toy_encode_kw 10) (fun _ => toy_decode 10) (repeat 0 100) (repeat 0 10) 8 32 []);
    rewrite ?repeat_length; lia.
Defined.

(** C8 (counterexample). 100 samples with [R = 10] and [chunk_size = 32]
    (320 samples): the chunked encode raises UnboundLocalError, which is not
    an AssertionError, whatever its message. *)
Lemma short_input_not_assertion :
  encode_audio Z Z unit 0 10 (toy_encode 10) (toy_encode_kw 10) (repeat 0 100) true 8 32 []
    = Err UnboundLocalError
  /\ forall msg, encode_audio Z Z unit 0 10 (toy_encode 10) (toy_encode_kw 10)
                   (repeat 0 100) true 8 32 [] <> Err (AssertionError msg).
Proof.
  assert (E : encode_audio Z Z unit 0 10 (toy_encode 10) (toy_encode_kw 10)
                (repeat 0 100) true 8 32 [] = Err UnboundLocalError) by reflexivity.
  split; [exact E|]. intros msg. rewrite E. discriminate.
Qed.

(** C10 (amended). When no keyword arguments are passed, and the time axis is
    exactly one chunk long ([chunk_size * R] samples for encode_audio,
    [chunk_size] latent frames for decode_audio), the chunked path makes one
    window covering the whole input and places it untrimmed over the whole
    output: [(t_start, t_end, chunk_start, chunk_end)] is
    [(0, y_size, 0, y_size)]. Its result equals the non-chunked one, given that
    the codec maps length [T] to [T / R] (encode) or [T * R] (decode). *)
Theorem single_chunk_matches_unchunked : forall (Aud Lat Info : Type)
  (zl : Lat) (za : Aud) R enc dec (enc_kw : kwargs -> list Aud -> enc_ret Lat Info)
  dec_kw (audio : list Aud) (latents : list Lat) O C,
  0 < R -> 0 <= O < C ->
  (forall x, Z.of_nat (length (enc x)) = Z.of_nat (length x) / R) ->
  (forall x, Z.of_nat (length (dec x)) = Z.of_nat (length x) * R) ->
  (forall x, enc_kw [] x = RetLatents (enc x)) ->
  (forall x, dec_kw [] x = dec x) ->
  Z.of_nat (length audio) = C * R -> Z.of_nat (length latents) = C ->
  chunk_windows (C * R) (C * R) (C * R - O * R) = Ok [(0, C * R)]
  /\ chunk_windows C C (C - O) = Ok [(0, C)]
  /\ encode_place 1 (C * R - O * R) (C * R) (O * R) R C 0 C = (0, C, 0, C)
  /\ decode_place 1 (C - O) C O R (C * R) 0 (C * R) = (0, C * R, 0, C * R)
  /\ encode_audio Aud Lat Info zl R enc enc_kw audio true O C []
     = Ok (RetLatents (enc audio), [ECall audio; EPaste 0 C])
  /\ encode_audio Aud Lat Info zl R enc enc_kw audio false O C []
     = Ok (RetLatents (enc audio), [ECall audio])
  /\ decode_audio Aud Lat za R dec dec_kw latents true O C []
     = Ok (dec latents, [ECall latents; EPaste 0 (C * R)])
  /\ decode_audio Aud Lat za R dec dec_kw latents false O C []
     = Ok (dec latents, [ECall latents]).
Proof.
  intros Aud Lat Info zl za R enc dec enc_kw dec_kw audio latents O C
    HR HO Henc Hdec Hekw Hdkw Ha Hl.
  split; [apply one_window; nia|].
  split; [apply one_window; lia|].
  split; [apply encode_place_single|].
  split; [apply decode_place_single|].
  split.
  { unfold encode_audio. cbn [negb].
    rewrite (encode_chunked_single Aud Lat zl R enc audio O C HR HO Henc Ha).
    reflexivity. }
  split; [unfold encode_audio; cbn [negb]; rewrite Hekw; reflexivity|].
  split; [unfold decode_audio; cbn [negb]; apply decode_chunked_single; assumption|].
  unfold decode_audio. cbn [negb]. rewrite Hdkw. reflexivity.
Qed.

Lemma single_chunk_matches_unchunked_witness :
  encode_audio Z Z unit 0 10 (toy_encode 10) (toy_encode_kw 10) (repeat 0 320) true 8 32 []
    = Ok (RetLatents (toy_encode 10 (repeat 0 320)), [ECall (repeat 0 320); EPaste 0 32])
  /\ encode_audio Z Z unit 0 10 (toy_encode 10) (toy_encode_kw 10) (repeat 0 320) false 8 32 []
    = Ok (RetLatents (toy_encode 10 (repeat 0 320)), [ECall (repeat 0 320)]).
Proof.
  destruct (single_chunk_matches_unchunked Z Z unit 0 0 10 (toy_encode 10) (toy_decode 10)
              (toy_encode_kw 10) (fun _ => toy_decode 10) (repeat 0 320) (repeat 0 32) 8 32
              ltac:(lia) ltac:(lia) (toy_encode_length 10 ltac:(lia))
              (toy_decode_length 10) (fun x => eq_refl) (fun x => eq_refl)
              ltac:(rewrite repeat_length; lia) ltac:(rewrite repeat_length; lia))
    as (_ & _ & _ & _ & E1 & E2 & _).
  exact (conj E1 E2).
Defined.

(** C10 (counterexample). With exactly one chunk of input (320 samples,
    [R = 10], [chunk_size = 32]) and the keyword argument [return_info=True],
    the non-chunked path forwards the keyword to [self.encode] and returns
    the pair [(latents, info)], while the chunked path drops the keywords and
    returns the bare latents. *)
Lemma single_chunk_kwargs_dropped :
  encode_audio Z Z unit 0 10 (toy_encode 10) (toy_encode_kw 10) (repeat 0 320) false 8 32
    [("return_info"%string, PBool true)]
    = Ok (RetLatentsInfo (repeat 0 32) tt, [ECall (repeat 0 320)])
  /\ encode_audio Z Z unit 0 10 (toy_encode 10) (toy_encode_kw 10) (repeat 0 320) true 8 32
    [("return_info"%string, PBool true)]
    = Ok (RetLatents (repeat 0 32), [ECall (repeat 0 320); EPaste 0 32]).
Proof. split; vm_compute; reflexivity. Qed.

(** ** Item-by-item loops *)

Lemma slices_singletons : forall {A : Type} (l : list A) n i,
  0 <= i -> (Z.to_nat i + n <= length l)%nat ->
  map (fun j => py_slice l j (j + 1)) (zseq i n)
  = map (fun x => [x]) (firstn n (skipn (Z.to_nat i) l)).
Proof.
  intros A l n. induction n as [|n IH]; intros i Hi Hn; [reflexivity|].
  destruct (skipn (Z.to_nat i) l) as [|x rest] eqn:E.
  { apply (f_equal (@length A)) in E. rewrite length_skipn in E. simpl in E. lia. }
  cbn [zseq map firstn].
  assert (Hs : py_slice l i (i + 1) = [x]).
  { unfold py_slice. rewrite slice_bounds_in by lia. unfold take_range. cbn [fst snd].
    rewrite E. replace (Z.to_nat (i + 1 - i)) with 1%nat by lia. reflexivity. }
  assert (Hr : skipn (Z.to_nat (i + 1)) l = rest).
  { rewrite Z2Nat.inj_add by lia. rewrite Nat.add_comm, <- skipn_skipn, E. reflexivity. }
  rewrite Hs, IH by lia. rewrite Hr. reflexivity.
Qed.

Lemma concat_singletons : forall {A : Type} (xs : list A),
  concat (map (fun x => [x]) xs) = xs.
Proof. induction xs as [|x xs IH]; simpl; [reflexivity | rewrite IH; reflexivity]. Qed.

Lemma iterate_per_sample : forall {T : Type} (f : list T -> list T) xs n,
  per_sample f -> xs <> [] -> n = len xs ->
  iterate_batch_loop f xs n = Ok (f xs).
Proof.
  intros T f xs n [g Hg] Hne ->. unfold iterate_batch_loop, len.
  rewrite Nat2Z.id, <- (map_map (fun j => py_slice xs j (j + 1)) f).
  rewrite slices_singletons by (cbn; lia).
  replace (skipn (Z.to_nat 0) xs) with xs by reflexivity. rewrite firstn_all.
  rewrite map_map.
  replace (map (fun x => f [x]) xs) with (map (fun x => [x]) (map g xs))
    by (rewrite map_map; apply map_ext; intros x; rewrite Hg; reflexivity).
  rewrite Hg. destruct xs as [|x xs]; [contradiction|].
  change (torch_cat (map (fun y => [y]) (map g (x :: xs))))
    with (Ok (concat (map (fun y => [y]) (map g (x :: xs))))).
  rewrite concat_singletons. reflexivity.
Qed.

Lemma per_sample_len : forall {T : Type} (f : list T -> list T) xs,
  per_sample f -> len (f xs) = len xs /\ (xs <> [] -> f xs <> []).
Proof.
  intros T f xs [g Hg]. rewrite Hg. unfold len. rewrite length_map. split; [reflexivity|].
  destruct xs; [contradiction|]. discriminate.
Qed.

(** C9 (the divergence). When the pretransform, the encoder, the decoder
    and the bottleneck's [decode] process batch items independently,
    [encode] with [iterate_batch=True] returns what it returns with
    [iterate_batch=False] on every nonempty batch; but [decode] with
    [iterate_batch=True] and keyword arguments [dkw] returns what the
    batched [decode] returns with no keyword arguments: the item-by-item
    loop calls [self.decoder(latents[i:i+1])] without [**kwargs], which the
    batched call [self.decoder(latents, **kwargs)] forwards. *)
Theorem iterate_batch_decode_drops_kwargs : forall (T : Type) pretransform encoder decoder
  bottleneck soft_clip (tanh : T -> T) (audio latents : list T)
  return_info skip_pretransform kw dkw,
  (forall eg pe pd, pretransform = Some (eg, pe, pd) -> per_sample pe /\ per_sample pd) ->
  (forall e, encoder = Some e -> per_sample e) ->
  per_sample (decoder []) ->
  (forall be bd, bottleneck = Some (be, bd) -> per_sample bd) ->
  audio <> [] -> latents <> [] ->
  encode T pretransform encoder bottleneck audio return_info skip_pretransform true kw
  = encode T pretransform encoder bottleneck audio return_info skip_pretransform false kw
  /\ decode T pretransform decoder bottleneck soft_clip tanh latents true dkw
     = decode T pretransform decoder bottleneck soft_clip tanh latents false [].
Proof.
  intros T pretransform encoder decoder bottleneck soft_clip tanh audio latents
    return_info skip_pretransform kw dkw Hpt Henc Hdec Hbn Ha Hl.
  split.
  - unfold encode.
    assert (Hstage1 : exists a, a <> [] /\
      match pretransform with
      | Some (_, pt_encode, _) =>
          if negb skip_pretransform then iterate_batch_loop pt_encode audio (len audio)
          else Ok audio
      | None => Ok audio
      end = Ok a /\
      match pretransform with
      | Some (_, pt_encode, _) =>
          if negb skip_pretransform then Ok (pt_encode audio) else Ok audio
      | None => Ok audio
      end = Ok a).
    { destruct pretransform as [[[eg pe] pd]|].
      - destruct (Hpt eg pe pd eq_refl) as [Hpe _].
        destruct skip_pretransform; cbn [negb].
        + exists audio. auto.
        + exists (pe audio). split; [apply per_sample_len; assumption|].
          split; [apply iterate_per_sample; auto|reflexivity].
      - exists audio. auto. }
    destruct Hstage1 as (a & Hane & E1 & E2).
    replace (match pretransform with
             | Some (_, pt_encode, _) =>
                 if negb skip_pretransform then
                   if true then iterate_batch_loop pt_encode audio (len audio)
                   else Ok (pt_encode audio)
                 else Ok audio
             | None => Ok audio
             end) with (Ok a : res (list T))
      by (rewrite <- E1; destruct pretransform as [[[? ?] ?]|]; reflexivity).
    replace (match pretransform with
             | Some (_, pt_encode, _) =>
                 if negb skip_pretransform then
                   if false then iterate_batch_loop pt_encode audio (len audio)
                   else Ok (pt_encode audio)
                 else Ok audio
             | None => Ok audio
             end) with (Ok a : res (list T))
      by (rewrite <- E2; destruct pretransform as [[[? ?] ?]|]; reflexivity).
    cbn [bind].
    destruct encoder as [e|]; [|reflexivity].
    rewrite (iterate_per_sample e a (len a) (Henc e eq_refl) Hane eq_refl). reflexivity.
  - unfold decode.
    assert (Hb : exists l, l <> [] /\
      match bottleneck with
      | Some (_, bn_decode) =>
          if true then iterate_batch_loop bn_decode latents (len latents)
          else Ok (bn_decode latents)
      | None => Ok latents
      end = Ok l /\
      match bottleneck with
      | Some (_, bn_decode) =>
          if false then iterate_batch_loop bn_decode latents (len latents)
          else Ok (bn_decode latents)
      | None => Ok latents
      end = Ok l).
    { destruct bottleneck as [[be bd]|].
      - pose proof (Hbn be bd eq_refl) as Hbd. exists (bd latents).
        split; [apply per_sample_len; assumption|].
        split; [apply iterate_per_sample; auto|reflexivity].
      - exists latents. auto. }
    destruct Hb as (l & Hlne & E1 & E2). rewrite E1, E2. cbn [bind].
    rewrite (iterate_per_sample (decoder []) l (len l) Hdec Hlne eq_refl). cbn [bind].
    destruct (per_sample_len (decoder []) l Hdec) as [Hlen Hne].
    specialize (Hne Hlne).
    destruct pretransform as [[[eg pe] pd]|]; [|reflexivity].
    destruct (Hpt eg pe pd eq_refl) as [_ Hpd].
    destruct eg.
    + rewrite (iterate_per_sample pd (decoder [] l) _ Hpd Hne eq_refl). reflexivity.
    + rewrite (iterate_per_sample pd (decoder [] l) (len l) Hpd Hne (eq_sym Hlen)).
      reflexivity.
Qed.

(** a decoder that scales its input when given keyword arguments *)
Lemma iterate_batch_decode_drops_kwargs_witness :
  (encode Z (Some (true, map (fun x => x + 1), map (fun x => x - 1)))
     (Some (map (fun x => 2 * x))) (Some (fun _ l => (l, []), map (fun x => x)))
     [1; 2; 3] false false true []
   = encode Z (Some (true, map (fun x => x + 1), map (fun x => x - 1)))
     (Some (map (fun x => 2 * x))) (Some (fun _ l => (l, []), map (fun x => x)))
     [1; 2; 3] false false false []
   /\ decode Z (Some (true, map (fun x => x + 1), map (fun x => x - 1)))
        (fun kw => map (fun x => match kw with [] => x | _ => 10 * x end))
        (Some (fun _ l => (l, []), map (fun x => x)))
        false (fun x => x) [4; 5] true [("scale"%string, PInt 10)]
      = decode Z (Some (true, map (fun x => x + 1), map (fun x => x - 1)))
        (fun kw => map (fun x => match kw with [] => x | _ => 10 * x end))
        (Some (fun _ l => (l, []), map (fun x => x)))
        false (fun x => x) [4; 5] false [])
  /\ decode Z (Some (true, map (fun x => x + 1), map (fun x => x - 1)))
       (fun kw => map (fun x => match kw with [] => x | _ => 10 * x end))
       (Some (fun _ l => (l, []), map (fun x => x)))
       false (fun x => x) [4; 5] true [("scale"%string, PInt 10)]
     <> decode Z (Some (true, map (fun x => x + 1), map (fun x => x - 1)))
       (fun kw => map (fun x => match kw with [] => x | _ => 10 * x end))
       (Some (fun _ l => (l, []), map (fun x => x)))
       false (fun x => x) [4; 5] false [("scale"%string, PInt 10)].
Proof.
  assert (Hps : forall g : Z -> Z, per_sample (map g)) by (intros g; exists g; reflexivity).
  split.
  - apply (iterate_batch_decode_drops_kwargs Z
             (Some (true, map (fun x => x + 1), map (fun x => x - 1)))
             (Some (map (fun x => 2 * x)))
             (fun kw => map (fun x => match kw with [] => x | _ => 10 * x end))
             (Some (fun _ l => (l, []), map (fun x => x))) false (fun x => x)
             [1; 2; 3] [4; 5] false false [] [("scale"%string, PInt 10)]).
    + intros eg pe pd E. injection E as _ <- <-. split; apply Hps.
    + intros e E. injection E as <-. apply Hps.
    + apply Hps.
    + intros be bd E. injection E as _ <-. apply Hps.
    + discriminate.
    + discriminate.
  - vm_compute. discriminate.
Defined.

(** ** DiffusionAutoencoder.decode with a decoder *)

Lemma diffusion_decode_self_call : forall T shape2 R bd dec interpolate randn sample pd,
  dec <> None -> forall fuel (latents : T) steps,
  diffusion_decode T shape2 R bd dec interpolate randn sample pd fuel latents steps
  = Err RecursionError.
Proof.
  intros T shape2 R bd dec interpolate randn sample pd Hdec fuel.
  induction fuel as [|fuel IH]; intros latents steps; [reflexivity|].
  cbn [diffusion_decode]. destruct dec as [d|]; [|contradiction].
  rewrite IH. reflexivity.
Qed.

(** Without a decoder the same method does return, in one frame. *)
Lemma diffusion_decode_no_decoder : forall T shape2 R bd interpolate randn sample pd
  fuel (latents : T) steps,
  diffusion_decode T shape2 R bd None interpolate randn sample pd (S fuel) latents steps
  = Ok (diffusion_tail T shape2 interpolate randn sample pd (shape2 latents * R) steps
          (bottleneck_step T bd latents)).
Proof. reflexivity. Qed.

(** C6. DiffusionAutoencoder.decode runs to completion or raises, on every
    latent input and with every recursion budget of at least one frame:
    without a decoder it returns the diffusion sample, computed in one
    frame; with a decoder present, its call [self.decode(latents)] (where
    [self.decoder(latents)] was meant) recurses until the budget is spent
    and raises RecursionError.  Either way the call ends, so decode is a
    total function of its input. *)
Theorem diffusion_decode_completes_or_raises : forall T shape2 R bd dec interpolate randn
  sample pd fuel (latents : T) steps,
  diffusion_decode T shape2 R bd dec interpolate randn sample pd (S fuel) latents steps
  = match dec with
    | None => Ok (diffusion_tail T shape2 interpolate randn sample pd (shape2 latents * R)
                    steps (bottleneck_step T bd latents))
    | Some _ => Err RecursionError
    end.
Proof.
  intros T shape2 R bd dec interpolate randn sample pd fuel latents steps.
  destruct dec as [d|].
  - apply diffusion_decode_self_call. discriminate.
  - apply diffusion_decode_no_decoder.
Qed.

(** ** create_autoencoder_from_config *)

Lemma getitem_dict : forall k d v, dict_lookup k d = Some v -> getitem k (PDict d) = Ok v.
Proof. intros k d v H. unfold getitem. rewrite H. reflexivity. Qed.

Section FactoryProofs.
Variable py_import : string -> string -> res unit.
Variables new_encoder new_decoder : string -> pyval -> cm unit.
Variable new_pretransform : pyval -> pyval -> cm unit.
Variable new_bottleneck : pyval -> cm unit.

(** C7 (amended). If [config["model"]] is a dict whose encoder and decoder
    sections build (their factories return, having allocated [le] and
    [ld]), and the first of the required keys [latent_dim],
    [downsampling_ratio], [io_channels] (of the model config) and
    [sample_rate] (top level) that is missing or None is [k], then
    create_autoencoder_from_config raises AssertionError
    ["<k> must be specified in model config"] with no default taken, but
    only after the encoder and the decoder were built: everything their
    construction allocated, [le ++ ld], is allocated when it fails. *)
Theorem missing_key_fails_after_allocation : forall top ae ec dc le te ld td pre k post,
  dict_lookup "model" top = Some (PDict ae) ->
  dict_lookup "encoder" ae = Some ec ->
  create_encoder_from_config py_import new_encoder ec = (le, Ok te) ->
  dict_lookup "decoder" ae = Some dc ->
  create_decoder_from_config py_import new_decoder dc = (ld, Ok td) ->
  required_fields top ae = pre ++ (k, PNone) :: post ->
  Forall (fun p => snd p <> PNone) pre ->
  create_autoencoder_from_config py_import new_encoder new_decoder new_pretransform
    new_bottleneck (PDict top)
  = (le ++ ld, Err (AssertionError (required_message k))).
Proof.
  intros top ae ec dc le te ld td pre k post Hm He Hce Hd Hcd Hreq Hpre.
  unfold create_autoencoder_from_config.
  rewrite (getitem_dict _ _ _ Hm). cbn [cm_lift cm_bind].
  rewrite (getitem_dict _ _ _ He). cbn [cm_lift cm_bind]. rewrite Hce.
  cbn [cm_lift cm_bind]. rewrite (getitem_dict _ _ _ Hd). cbn [cm_lift cm_bind].
  rewrite Hcd. cbn [cm_lift cm_bind get app].
  unfold required_fields in Hreq.
  destruct pre as [|p1 [|p2 [|p3 [|p4 pre]]]]; cbn [app] in Hreq;
    injection Hreq; intros; subst;
    try (exfalso; eapply app_cons_not_nil; eassumption);
    repeat match goal with
           | H : Forall _ (_ :: _) |- _ => inversion H; clear H; subst
           end;
    cbn [snd] in *;
    repeat match goal with
           | H : dict_get ?x ?d PNone = PNone |- _ => rewrite H
           end;
    repeat match goal with
           | H : ?v <> PNone |- _ => destruct v; try congruence; clear H
           end;
    cbn; rewrite ?app_nil_r; reflexivity.
Qed.

End FactoryProofs.

Section FactoryExamples.
Local Open Scope string_scope.

Lemma missing_key_fails_after_allocation_witness :
  create_autoencoder_from_config example_import example_new_encoder example_new_decoder
    example_new_pretransform example_new_bottleneck (PDict (config_without "io_channels"))
  = ([AllocEncoder "oobleck"; AllocDecoder "oobleck"],
     Err (AssertionError (required_message "io_channels"))).
Proof.
  apply (missing_key_fails_after_allocation example_import example_new_encoder
           example_new_decoder example_new_pretransform example_new_bottleneck
           (config_without "io_channels")
           (model_config_without "io_channels") oobleck_section oobleck_section
           [AllocEncoder "oobleck"] "oobleck" [AllocDecoder "oobleck"] "oobleck"
           [("latent_dim", PInt 64); ("downsampling_ratio", PInt 2048)] "io_channels"
           [("sample_rate", PInt 44100)]); try reflexivity.
  repeat constructor; discriminate.
Defined.

(** C7 (counterexample). A config whose model section lacks [latent_dim],
    with Oobleck encoder and decoder sections that build: the assertion
    naming [latent_dim] is raised, but the encoder and the decoder have
    been built, weights included, before it. *)
Lemma missing_latent_dim_after_allocation :
  create_autoencoder_from_config example_import example_new_encoder example_new_decoder
    example_new_pretransform example_new_bottleneck (PDict (config_without "latent_dim"))
  = ([AllocEncoder "oobleck"; AllocDecoder "oobleck"],
     Err (AssertionError "latent_dim must be specified in model config")).
Proof. reflexivity. Qed.

End FactoryExamples.

(** ** Oobleck stacks: construction and forward shapes *)

Ltac zcase :=
  repeat match goal with
  | |- context [Z.eqb ?a ?b] => destruct (Z.eqb_spec a b); try (exfalso; lia)
  | |- context [Z.ltb ?a ?b] => destruct (Z.ltb_spec a b); try (exfalso; lia)
  end.

Ltac minmax :=
  repeat match goal with
  | |- context [Z.max ?a ?b] => destruct (Z.max_spec a b) as [[? ->]|[? ->]]
  | |- context [Z.min ?a ?b] => destruct (Z.min_spec a b) as [[? ->]|[? ->]]
  end.

Lemma forward_seq_cons sc sct aa l ls x :
  forward sc sct aa (LSeq (l :: ls)) x = (y <- forward sc sct aa l x ;; forward sc sct aa (LSeq ls) y).
Proof. reflexivity. Qed.

Lemma forward_seq_nil sc sct aa x : forward sc sct aa (LSeq []) x = Ok x.
Proof. reflexivity. Qed.

Lemma forward_act sc sct aa a x : forward sc sct aa (LAct a) x = Ok x.
Proof. reflexivity. Qed.

Lemma forward_upsample sc sct aa s x : forward sc sct aa (LUpsample s) x = Ok (fst x, snd x * s).
Proof. reflexivity. Qed.

Lemma forward_conv_same sc sct aa cin cout k x :
  forward sc sct aa (LConvSame cin cout k) x = conv1d_same_shape cin cout k x.
Proof. reflexivity. Qed.

Lemma forward_convT sc sct aa cin cout k s p x :
  forward sc sct aa (LConvT cin cout k s p) x = conv_transpose1d_shape cin cout k s p x.
Proof. reflexivity. Qed.

Lemma forward_conv sc sct aa cin cout k s p d m x :
  forward sc sct aa (LConv cin cout k s p d m) x = conv1d_shape cin cout k s p d m x.
Proof. reflexivity. Qed.

Lemma forward_seq_app sc sct aa ls1 ls2 x :
  forward sc sct aa (LSeq (ls1 ++ ls2)) x =
  (y <- forward sc sct aa (LSeq ls1) x ;; forward sc sct aa (LSeq ls2) y).
Proof.
  revert x; induction ls1 as [|l ls1 IH]; intro x; [reflexivity|].
  simpl app. rewrite !forward_seq_cons. destruct (forward sc sct aa l x); cbn [bind]; auto.
Qed.

Lemma dims_ok_nonneg l : Forall (fun n => 0 <= n) l -> dims_ok l = true.
Proof.
  unfold dims_ok. induction 1 as [|x l Hx _ IH]; [reflexivity|].
  cbn [forallb]. rewrite IH. destruct (Z.leb_spec 0 x); [reflexivity|lia].
Qed.

Ltac dims := repeat constructor; nia.

Lemma nth_nonneg (l : list Z) j : Forall (fun c => 0 <= c) l -> 0 <= nth j l 0.
Proof.
  intros H. revert j. induction H as [|x l Hx _ IH]; intros [|j]; cbn [nth]; auto; lia.
Qed.

Lemma Forall_pos_nonneg (l : list Z) :
  Forall (fun c => 1 <= c) l -> Forall (fun c => 0 <= c) l.
Proof. intros H. eapply Forall_impl; [|exact H]. cbn. lia. Qed.

Lemma WNConv1d_valid cin cout k s p d m :
  valid_mode m -> 0 <= cin -> 0 <= cout -> 0 <= k ->
  WNConv1d cin cout k s p d m = Init (LConv cin cout k s p d m).
Proof.
  unfold valid_mode, WNConv1d. intros -> ? ? ?. rewrite dims_ok_nonneg by dims. reflexivity.
Qed.

Lemma get_activation_ok use_snake antialias ch :
  0 <= ch ->
  get_activation (act_name use_snake) antialias ch
  = Init (if antialias then LAntialias (if use_snake then Snake ch else ELU)
          else LAct (if use_snake then Snake ch else ELU)).
Proof.
  intros H. unfold get_activation. destruct use_snake; cbn [act_name].
  - rewrite dims_ok_nonneg by dims. destruct antialias; reflexivity.
  - destruct antialias; reflexivity.
Qed.

Lemma get_activation_act_name use_snake antialias ch :
  0 <= ch -> exists a, get_activation (act_name use_snake) antialias ch = Init a.
Proof. intros H. rewrite get_activation_ok by exact H. eexists; reflexivity. Qed.

Lemma create_downsample_ok cin cout s causal m :
  valid_mode m -> 0 <= cin -> 0 <= cout -> 0 <= s ->
  create_downsample_layer cin cout s causal m
  = Init (if causal then LSConv cin cout (2 * s) s
          else LConv cin cout (2 * s) s (ceil_half s) 1 m).
Proof.
  intros Hm ? ? ?. unfold create_downsample_layer. destruct causal.
  - rewrite dims_ok_nonneg by dims. reflexivity.
  - apply WNConv1d_valid; auto; lia.
Qed.

Lemma create_upsample_noncausal cin cout s nearest m :
  0 <= cin -> 0 <= cout -> 0 <= s ->
  create_upsample_layer cin cout s nearest false m
  = Init (if nearest then LSeq [LUpsample s; LConvSame cin cout (2 * s)]
          else LConvT cin cout (2 * s) s (ceil_half s)).
Proof.
  intros ? ? ?. unfold create_upsample_layer.
  rewrite !dims_ok_nonneg by dims. destruct nearest; reflexivity.
Qed.

Lemma conv1d_zeros_shape cin cout k s p d L :
  1 <= s -> 1 <= d -> 0 <= p -> d * (k - 1) + 1 <= L + 2 * p ->
  conv1d_shape cin cout k s p d "zeros" (cin, L) = Ok (cout, (L + 2 * p - d * (k - 1) - 1) / s + 1).
Proof.
  intros Hs Hd Hp H. unfold conv1d_shape. rewrite Z.eqb_refl.
  destruct (Z.ltb_spec s 1); [lia|]. destruct (Z.ltb_spec d 1); [lia|].
  destruct (Z.ltb_spec p 0); [lia|].
  destruct (Z.ltb_spec (L + 2 * p) (d * (k - 1) + 1)); [lia|]. reflexivity.
Qed.

Lemma residual_body_shape sc sct aa a1 a2 C k p d L :
  1 <= d -> 0 <= p -> d * (k - 1) + 1 <= L + 2 * p ->
  forward sc sct aa (LSeq [LAct a1; LConv C C k 1 p d "zeros"; LAct a2; LConv C C 1 1 0 1 "zeros"])
    (C, L) = Ok (C, L + 2 * p - d * (k - 1)).
Proof.
  intros Hd Hp H. rewrite !forward_seq_cons. cbn [forward bind].
  rewrite conv1d_zeros_shape by nia. cbn [bind]. rewrite Z.div_1_r.
  rewrite conv1d_zeros_shape by nia. cbn [bind]. rewrite Z.div_1_r. f_equal. f_equal. nia.
Qed.

Lemma forward_residual sc sct aa body causal p x :
  forward sc sct aa (LResidual body causal p) x =
  (y <- forward sc sct aa body x ;; broadcast_add (if causal then trim_shape p y else y) x).
Proof. reflexivity. Qed.

Lemma trim_shape_len c L p : 0 < p <= L -> trim_shape p (c, L) = (c, L - p).
Proof.
  intros H. unfold trim_shape, slice_bounds, norm_index. cbn [fst snd].
  destruct (Z.ltb_spec 0 0); [lia|]. destruct (Z.ltb_spec (- p) 0); [|lia].
  f_equal. minmax; lia.
Qed.

(** [x[:, :, :-0]] is [x[:, :, :0]] *)
Lemma trim_shape_zero c L : 0 <= L -> trim_shape 0 (c, L) = (c, 0).
Proof.
  intros H. unfold trim_shape, slice_bounds, norm_index. cbn [fst snd Z.opp].
  destruct (Z.ltb_spec 0 0); [lia|]. f_equal. minmax; lia.
Qed.

Lemma broadcast_add_same x : broadcast_add x x = Ok x.
Proof. destruct x as [c l]. unfold broadcast_add, bdim. cbn. rewrite !Z.eqb_refl. reflexivity. Qed.

(** ResidualUnit with its padding made explicit *)
Lemma residual_unit_unfold C d k use_snake causal :
  0 <= C -> 0 <= k ->
  ResidualUnit C C d k use_snake false causal "zeros"
  = Init (LResidual (LSeq [LAct (if use_snake then Snake C else ELU);
                           LConv C C k 1 (if causal then d * (k - 1) else d * (k - 1) / 2)
                             d "zeros";
                           LAct (if use_snake then Snake C else ELU);
                           LConv C C 1 1 0 1 "zeros"])
            causal (if causal then d * (k - 1) else d * (k - 1) / 2)).
Proof.
  intros HC Hk. unfold ResidualUnit. cbv zeta.
  rewrite !get_activation_ok by lia. rewrite !WNConv1d_valid by (reflexivity || lia).
  reflexivity.
Qed.

Lemma residual_unit_keeps_shape C d k use_snake causal :
  0 <= C -> 1 <= d -> 0 <= d * (k - 1) -> residual_ok causal (d * (k - 1)) = true ->
  exists r, ResidualUnit C C d k use_snake false causal "zeros" = Init r /\
    forall sc sct aa L, 1 <= L -> forward sc sct aa r (C, L) = Ok (C, L).
Proof.
  intros HC Hd He Hok. unfold residual_ok in Hok.
  rewrite residual_unit_unfold by nia.
  eexists; (split; [reflexivity|]); intros sc sct aa L HL; rewrite forward_residual.
  destruct causal.
  - apply Z.ltb_lt in Hok. rewrite residual_body_shape by nia. cbn [bind].
    rewrite trim_shape_len by lia.
    replace (L + 2 * (d * (k - 1)) - d * (k - 1) - d * (k - 1)) with L by lia.
    apply broadcast_add_same.
  - apply Z.even_spec in Hok. destruct Hok as [q Hq]. rewrite Hq.
    rewrite (Z.mul_comm 2 q), Z.div_mul by lia.
    rewrite residual_body_shape by lia. cbn [bind].
    replace (L + 2 * q - d * (k - 1)) with L by lia. apply broadcast_add_same.
Qed.

Lemma residual_unit_odd_fails C d k use_snake L sc sct aa :
  0 <= C -> 1 <= d -> 0 <= d * (k - 1) -> Z.odd (d * (k - 1)) = true -> 3 <= L ->
  exists r, ResidualUnit C C d k use_snake false false "zeros" = Init r /\
    forward sc sct aa r (C, L) = Err RuntimeError.
Proof.
  intros HC Hd He Hodd HL. apply Z.odd_spec in Hodd. destruct Hodd as [q Hq].
  rewrite residual_unit_unfold by nia.
  eexists; (split; [reflexivity|]); rewrite forward_residual.
  rewrite Hq; replace ((2 * q + 1) / 2) with q
    by (rewrite Z.add_comm, Z.mul_comm, Z.div_add by lia; reflexivity).
  rewrite residual_body_shape by lia. cbn [bind].
  unfold broadcast_add, bdim; cbn [fst snd]; rewrite Z.eqb_refl; cbn [bind].
  zcase; reflexivity.
Qed.

Lemma residual_unit_causal_zero_fails C d k use_snake L sc sct aa :
  0 <= C -> 1 <= d -> d * (k - 1) = 0 -> 2 <= L ->
  exists r, ResidualUnit C C d k use_snake false true "zeros" = Init r /\
    forward sc sct aa r (C, L) = Err RuntimeError.
Proof.
  intros HC Hd He HL.
  rewrite residual_unit_unfold by nia.
  eexists; (split; [reflexivity|]); rewrite forward_residual.
  rewrite He. rewrite residual_body_shape by lia. cbn [bind].
  rewrite trim_shape_zero by lia.
  unfold broadcast_add, bdim; cbn [fst snd]; rewrite Z.eqb_refl; cbn [bind].
  zcase; reflexivity.
Qed.

Lemma ceil_half_bounds s : 0 <= s -> s <= 2 * ceil_half s <= s + 1.
Proof.
  intros H. unfold ceil_half.
  pose proof (Z.div_mod (s + 1) 2 ltac:(lia)). pose proof (Z.mod_pos_bound (s + 1) 2 ltac:(lia)).
  lia.
Qed.

Lemma downsample_len s M :
  1 <= s -> 1 <= M ->
  (s * M + 2 * ceil_half s - 1 * (2 * s - 1) - 1) / s + 1 = if s =? 1 then M + 1 else M.
Proof.
  intros Hs HM. pose proof (ceil_half_bounds s ltac:(lia)).
  destruct (Z.eqb_spec s 1) as [->|Hs1].
  - replace (ceil_half 1) with 1 by reflexivity. rewrite Z.div_1_r. cbn [Z.eqb]. lia.
  - replace (s * M + 2 * ceil_half s - 1 * (2 * s - 1) - 1)
      with ((M - 1) * s + (2 * ceil_half s - s)) by lia.
    rewrite Z.div_add_l by lia. rewrite (Z.div_small (2 * ceil_half s - s) s) by lia. lia.
Qed.

Lemma encoder_block_shape cin cout s use_snake :
  0 <= cin -> 0 <= cout -> 1 <= s ->
  exists b, EncoderBlock cin cout s use_snake false false "zeros" = Init b /\
    forall sc sct aa M, 1 <= M ->
      forward sc sct aa b (cin, s * M) = Ok (cout, if s =? 1 then M + 1 else M).
Proof.
  intros Hcin Hcout Hs.
  destruct (residual_unit_keeps_shape cin 1 7 use_snake false) as [r1 [E1 F1]];
    try (easy || lia).
  destruct (residual_unit_keeps_shape cin 3 7 use_snake false) as [r2 [E2 F2]];
    try (easy || lia).
  destruct (residual_unit_keeps_shape cin 9 7 use_snake false) as [r3 [E3 F3]];
    try (easy || lia).
  unfold EncoderBlock. rewrite E1, E2, E3. cbn [init_bind].
  rewrite get_activation_ok by lia. rewrite create_downsample_ok by (reflexivity || lia).
  destruct use_snake; cbn -[forward Z.mul]; eexists; (split; [reflexivity|]);
  intros sc sct aa M HM; rewrite forward_seq_cons;
  rewrite F1 by nia; cbn [bind]; rewrite forward_seq_cons;
  rewrite F2 by nia; cbn [bind]; rewrite forward_seq_cons;
  rewrite F3 by nia; cbn [bind];
  cbn [forward bind]; pose proof (ceil_half_bounds s ltac:(lia));
  rewrite conv1d_zeros_shape by nia; cbn [bind]; rewrite downsample_len by lia; reflexivity.
Qed.

Lemma upsample_len s M :
  1 <= s -> (M - 1) * s - 2 * ceil_half s + (2 * s - 1) + 1 =
            if Z.even s then M * s else M * s - 1.
Proof.
  intros Hs. unfold ceil_half. destruct (Z.even s) eqn:E.
  - apply Z.even_spec in E. destruct E as [q ->].
    replace (2 * q + 1) with (1 + q * 2) by lia. rewrite Z.div_add by lia.
    change (1 / 2) with 0. nia.
  - assert (Z.odd s = true) by (rewrite <- Z.negb_even, E; reflexivity).
    apply Z.odd_spec in H. destruct H as [q ->].
    replace (2 * q + 1 + 1) with ((q + 1) * 2) by lia. rewrite Z.div_mul by lia. nia.
Qed.


Lemma decoder_block_shape cin cout s use_snake nearest :
  0 <= cin -> 0 <= cout -> 1 <= s ->
  exists b, DecoderBlock cin cout s use_snake false nearest false "zeros" = Init b /\
    forall sc sct aa M, 1 <= M -> 1 <= upsampled nearest s M ->
      forward sc sct aa b (cin, M) = Ok (cout, upsampled nearest s M).
Proof.
  intros Hcin Hcout Hs.
  destruct (residual_unit_keeps_shape cout 1 7 use_snake false) as [r1 [E1 F1]];
    try (easy || lia).
  destruct (residual_unit_keeps_shape cout 3 7 use_snake false) as [r2 [E2 F2]];
    try (easy || lia).
  destruct (residual_unit_keeps_shape cout 9 7 use_snake false) as [r3 [E3 F3]];
    try (easy || lia).
  unfold DecoderBlock. rewrite E1, E2, E3.
  rewrite get_activation_ok by lia. rewrite create_upsample_noncausal by lia.
  pose proof (ceil_half_bounds s ltac:(lia)).
  destruct use_snake, nearest; cbn -[forward Z.mul ResidualUnit]; eexists; (split; [reflexivity|]);
  intros sc sct aa M HM HU; rewrite forward_seq_cons, forward_act; cbn [bind];
  rewrite forward_seq_cons.
  all: match goal with
       | |- context [LConvT] =>
           rewrite forward_convT; unfold conv_transpose1d_shape;
           rewrite Z.eqb_refl; cbn [negb];
           destruct (Z.ltb_spec s 1); [lia|]; destruct (Z.ltb_spec (ceil_half s) 0); [lia|];
           cbn [orb];
           unfold upsampled in *; rewrite upsample_len by lia; cbn [orb] in *;
           destruct (Z.ltb_spec (if Z.even s then M * s else M * s - 1) 1); [lia|];
           cbn [bind]
       | |- _ =>
           rewrite forward_seq_cons, forward_upsample; cbn [bind fst snd];
           rewrite forward_seq_cons, forward_conv_same; unfold conv1d_same_shape;
           rewrite Z.eqb_refl; cbn [negb];
           unfold upsampled in *; cbn [orb] in *;
           destruct (Z.ltb_spec (M * s) 1); [lia|]; cbn [bind]; rewrite forward_seq_nil;
           cbn [bind]
       end.
  all: rewrite forward_seq_cons; rewrite F1 by lia; cbn [bind]; rewrite forward_seq_cons;
       rewrite F2 by lia; cbn [bind]; rewrite forward_seq_cons; rewrite F3 by lia;
       reflexivity.
Qed.

Lemma range_up_zseq f cur stop :
  Z.of_nat f = stop - cur -> range_up f cur stop 1 = zseq cur f.
Proof.
  revert cur; induction f as [|f IH]; intros cur H; [reflexivity|].
  cbn [range_up zseq]. destruct (Z.ltb_spec cur stop); [|lia].
  f_equal. apply IH. lia.
Qed.

Lemma range_down_zdown f cur stop :
  Z.of_nat f = cur - stop -> range_down f cur stop (-1) = zdown cur f.
Proof.
  revert cur; induction f as [|f IH]; intros cur H; [reflexivity|].
  cbn [range_down zdown]. destruct (Z.ltb_spec stop cur); [|lia].
  f_equal. replace (cur + -1) with (cur - 1) by lia. apply IH. lia.
Qed.

Lemma range_init_up n : range_init 0 (Z.of_nat n) 1 = Init (zseq 0 n).
Proof.
  unfold range_init, py_range. cbn [Z.eqb Z.ltb Z.compare].
  rewrite Z.sub_0_r, Nat2Z.id. rewrite range_up_zseq by lia. reflexivity.
Qed.

Lemma range_init_down n : range_init (Z.of_nat n) 0 (-1) = Init (zdown (Z.of_nat n) n).
Proof.
  unfold range_init, py_range. cbn [Z.eqb Z.ltb Z.compare].
  rewrite Z.sub_0_r, Nat2Z.id. rewrite range_down_zdown by lia. reflexivity.
Qed.

Lemma py_index_nat (l : list Z) i :
  (i < length l)%nat -> py_index l (Z.of_nat i) = Init (nth i l 0).
Proof.
  intros H. unfold py_index. rewrite Nat2Z.id. rewrite (nth_error_nth' l 0 H). reflexivity.
Qed.

Lemma py_index_oob {A : Type} (l : list A) i :
  (length l <= i)%nat -> py_index l (Z.of_nat i) = InitErr InitIndexError.
Proof.
  intros H. unfold py_index. rewrite Nat2Z.id. apply nth_error_None in H. rewrite H. reflexivity.
Qed.

Lemma py_index_head {A : Type} (x : A) l : py_index (x :: l) 0 = Init x.
Proof. reflexivity. Qed.

Lemma py_last_nth (l : list Z) :
  l <> [] -> py_last l = Init (nth (length l - 1) l 0).
Proof.
  intros H. destruct (exists_last H) as [l' [x ->]].
  unfold py_last. rewrite rev_unit. rewrite length_app. cbn [length].
  rewrite app_nth2 by lia. replace (length l' + 1 - 1 - length l')%nat with 0%nat by lia.
  reflexivity.
Qed.

Lemma skipn_nth (l : list Z) j :
  (j < length l)%nat -> skipn j l = nth j l 0 :: skipn (S j) l.
Proof.
  revert j; induction l as [|x l IH]; intros j H; cbn in H; [lia|].
  destruct j; [reflexivity|]. cbn [skipn nth]. apply IH. lia.
Qed.

Lemma prodz_pos l : Forall (fun s => 1 <= s) l -> 1 <= prodz l.
Proof. unfold prodz. induction 1; cbn [fold_right]; nia. Qed.

Lemma prodz_cons x l : prodz (x :: l) = x * prodz l.
Proof. reflexivity. Qed.

Lemma prodz_ge2 l : Forall (fun s => 2 <= s) l -> 1 <= prodz l.
Proof. intros H. apply prodz_pos. eapply Forall_impl; [|exact H]. cbn. lia. Qed.

Lemma enc_blocks_shape (cm st : list Z) ch us :
  Forall (fun c => 0 <= c) cm -> 0 <= ch ->
  forall m j, (j + m < length cm)%nat -> (j + m <= length st)%nat ->
  Forall (fun s => 2 <= s) (firstn m (skipn j st)) ->
  exists bs,
    init_mapM (fun i =>
      ci <: py_index cm i ;; ci1 <: py_index cm (i + 1) ;; s <: py_index st i ;;
      EncoderBlock (ci * ch) (ci1 * ch) s us false false "zeros") (zseq (Z.of_nat j) m)
      = Init bs /\
    forall sc sct aa M, 1 <= M ->
      forward sc sct aa (LSeq bs) (nth j cm 0 * ch, M * prodz (firstn m (skipn j st)))
      = Ok (nth (j + m) cm 0 * ch, M).
Proof.
  intros Hcm Hch. induction m as [|m IH]; intros j H1 H2 HF.
  - exists []. split; [reflexivity|]. intros. cbn [firstn prodz fold_right].
    rewrite Nat.add_0_r, Z.mul_1_r. reflexivity.
  - rewrite skipn_nth in HF by lia. cbn [firstn] in HF.
    inversion HF as [|? ? Hs HF']; subst.
    pose proof (nth_nonneg cm j Hcm). pose proof (nth_nonneg cm (S j) Hcm).
    destruct (encoder_block_shape (nth j cm 0 * ch) (nth (S j) cm 0 * ch) (nth j st 0) us)
      as [b [Eb Fb]]; [nia|nia|lia|].
    destruct (IH (S j)) as [bs [Ebs Fbs]]; try lia; [exact HF'|].
    exists (b :: bs). split.
    + cbn [zseq init_mapM]. replace (Z.of_nat j + 1) with (Z.of_nat (S j)) by lia.
      rewrite !py_index_nat by lia. cbn [init_bind]. rewrite Eb. cbn [init_bind].
      rewrite Ebs. reflexivity.
    + intros sc sct aa M HM.
      assert (HP : 1 <= prodz (firstn m (skipn (S j) st))) by (apply prodz_ge2; exact HF').
      rewrite skipn_nth by lia. cbn [firstn]. rewrite prodz_cons, forward_seq_cons.
      replace (M * (nth j st 0 * prodz (firstn m (skipn (S j) st))))
        with (nth j st 0 * (M * prodz (firstn m (skipn (S j) st)))) by ring.
      rewrite Fb by nia. destruct (Z.eqb_spec (nth j st 0) 1); [lia|]. cbn [bind].
      replace (j + S m)%nat with (S j + m)%nat by lia. apply Fbs; lia.
Qed.

Lemma oobleck_encoder_shape in_channels channels latent_dim c_mults strides use_snake M :
  0 <= in_channels -> 0 <= channels -> 0 <= latent_dim -> Forall (fun c => 0 <= c) c_mults ->
  (length c_mults <= length strides)%nat ->
  Forall (fun s => 2 <= s) (firstn (length c_mults) strides) -> 1 <= M ->
  exists enc,
    OobleckEncoder in_channels channels latent_dim c_mults strides use_snake false false "zeros"
      = Init enc /\
    forall sc sct aa,
      forward sc sct aa enc (in_channels, M * prodz (firstn (length c_mults) strides))
      = Ok (latent_dim, M).
Proof.
  intros Hin Hch Hlat Hcm Hlen HF HM.
  assert (Hcm1 : Forall (fun c => 0 <= c) (1 :: c_mults)) by (constructor; [lia|exact Hcm]).
  destruct (enc_blocks_shape (1 :: c_mults) strides channels use_snake Hcm1 Hch
              (length c_mults) 0) as [bs [Ebs Fbs]]; cbn [length skipn]; try lia; [exact HF|].
  change (Z.of_nat 0) with 0 in Ebs. cbn [nth skipn Nat.add] in Fbs.
  assert (HP : 1 <= prodz (firstn (length c_mults) strides)) by (apply prodz_ge2; exact HF).
  pose proof (nth_nonneg (1 :: c_mults) (length c_mults) Hcm1) as Hl.
  unfold OobleckEncoder. cbv zeta.
  replace (len (1 :: c_mults) - 1) with (Z.of_nat (length c_mults))
    by (unfold len; cbn [length]; lia).
  rewrite range_init_up, py_index_head.
  rewrite (py_last_nth (1 :: c_mults)) by discriminate. cbn [length Nat.sub].
  rewrite Nat.sub_0_r.
  cbn -[Z.mul forward nth EncoderBlock init_mapM zseq py_index get_activation WNConv1d].
  rewrite Ebs. rewrite !WNConv1d_valid by (reflexivity || nia).
  rewrite get_activation_ok by nia.
  destruct use_snake; cbn -[Z.mul forward nth]; eexists; (split; [reflexivity|]);
  intros sc sct aa;
  rewrite forward_seq_cons, forward_conv, conv1d_zeros_shape by nia; cbn [bind];
  rewrite Z.div_1_r;
  replace (M * prodz (firstn (length c_mults) strides) + 2 * 3 - 1 * (7 - 1) - 1 + 1)
    with (M * prodz (firstn (length c_mults) strides)) by ring;
  rewrite forward_seq_app, Fbs by lia; cbn [bind];
  rewrite forward_seq_cons, forward_act; cbn [bind];
  rewrite forward_seq_cons, forward_conv, conv1d_zeros_shape by nia; cbn [bind];
  rewrite Z.div_1_r; rewrite forward_seq_nil; f_equal; f_equal; ring.
Qed.

Lemma prodz_nil : prodz [] = 1.
Proof. reflexivity. Qed.

Lemma prodz_app a b : prodz (a ++ b) = prodz a * prodz b.
Proof. induction a as [|x a IH]; cbn [app]; rewrite ?prodz_cons, ?IH, ?prodz_nil; ring. Qed.

Lemma firstn_S_skipn (l : list Z) k m :
  (k + m < length l)%nat ->
  firstn (S m) (skipn k l) = firstn m (skipn k l) ++ [nth (k + m) l 0].
Proof.
  revert k; induction m as [|m IH]; intros k H.
  - rewrite skipn_nth by lia. rewrite Nat.add_0_r. reflexivity.
  - rewrite skipn_nth by lia. rewrite !firstn_cons, <- app_comm_cons.
    rewrite IH by lia. replace (S k + m)%nat with (k + S m)%nat by lia. reflexivity.
Qed.

Lemma upsampled_exact nearest s M : dec_stride_ok nearest s -> upsampled nearest s M = M * s.
Proof.
  intros [_ [H|H]]; unfold upsampled; rewrite H; [reflexivity|].
  rewrite orb_true_r. reflexivity.
Qed.

Lemma dec_blocks_shape (cm st : list Z) ch us nearest :
  Forall (fun c => 0 <= c) cm -> 0 <= ch ->
  forall m j, (j < length cm)%nat -> (m <= j)%nat -> (j <= length st)%nat ->
  Forall (dec_stride_ok nearest) (firstn m (skipn (j - m) st)) ->
  exists bs,
    init_mapM (fun i =>
      ci <: py_index cm i ;; ci1 <: py_index cm (i - 1) ;; s <: py_index st (i - 1) ;;
      DecoderBlock (ci * ch) (ci1 * ch) s us false nearest false "zeros")
      (zdown (Z.of_nat j) m) = Init bs /\
    forall sc sct aa M, 1 <= M ->
      forward sc sct aa (LSeq bs) (nth j cm 0 * ch, M)
      = Ok (nth (j - m) cm 0 * ch, M * prodz (firstn m (skipn (j - m) st))).
Proof.
  intros Hcm Hch. induction m as [|m IH]; intros j H1 H2 H3 HF.
  - exists []. split; [reflexivity|]. intros. cbn [firstn].
    rewrite Nat.sub_0_r, prodz_nil, Z.mul_1_r. reflexivity.
  - replace (j - S m)%nat with (j - 1 - m)%nat in * by lia.
    rewrite firstn_S_skipn in HF |- * by lia.
    replace (j - 1 - m + m)%nat with (j - 1)%nat in * by lia.
    apply Forall_app in HF. destruct HF as [HF HF1]. inversion HF1 as [|? ? Hs _]; subst.
    pose proof (nth_nonneg cm j Hcm). pose proof (nth_nonneg cm (j - 1) Hcm).
    destruct (decoder_block_shape (nth j cm 0 * ch) (nth (j - 1) cm 0 * ch) (nth (j - 1) st 0)
                us nearest) as [b [Eb Fb]]; [nia|nia|apply (proj1 Hs)|].
    destruct (IH (j - 1)%nat) as [bs [Ebs Fbs]]; try lia; [exact HF|].
    exists (b :: bs). split.
    + cbn [zdown init_mapM]. replace (Z.of_nat j - 1) with (Z.of_nat (j - 1)) by lia.
      rewrite !py_index_nat by lia. cbn [init_bind]. rewrite Eb. cbn [init_bind].
      rewrite Ebs. reflexivity.
    + intros sc sct aa M HM.
      assert (HP : 1 <= prodz (firstn m (skipn (j - 1 - m) st))).
      { apply prodz_pos. eapply Forall_impl; [|exact HF]. intros x [? _]. exact H4. }
      rewrite forward_seq_cons, Fb
        by (try rewrite upsampled_exact by exact Hs; destruct Hs; nia).
      rewrite upsampled_exact by exact Hs. cbn [bind].
      rewrite Fbs by (destruct Hs; nia). rewrite prodz_app, prodz_cons, prodz_nil.
      f_equal. f_equal. ring.
Qed.

Lemma oobleck_decoder_shape out_channels channels latent_dim c_mults strides use_snake
  use_nearest_upsample final_tanh M :
  0 <= out_channels -> 0 <= channels -> 0 <= latent_dim -> Forall (fun c => 0 <= c) c_mults ->
  (length c_mults <= length strides)%nat ->
  Forall (dec_stride_ok use_nearest_upsample) (firstn (length c_mults) strides) -> 1 <= M ->
  exists dec,
    OobleckDecoder out_channels channels latent_dim c_mults strides use_snake false
      use_nearest_upsample final_tanh false "zeros" = Init dec /\
    forall sc sct aa,
      forward sc sct aa dec (latent_dim, M)
      = Ok (out_channels, M * prodz (firstn (length c_mults) strides)).
Proof.
  intros Hout Hch Hlat Hcm Hlen HF HM.
  assert (Hcm1 : Forall (fun c => 0 <= c) (1 :: c_mults)) by (constructor; [lia|exact Hcm]).
  destruct (dec_blocks_shape (1 :: c_mults) strides channels use_snake use_nearest_upsample
              Hcm1 Hch (length c_mults) (length c_mults)) as [bs [Ebs Fbs]];
    cbn [length]; try lia; [rewrite Nat.sub_diag; exact HF|].
  rewrite Nat.sub_diag in Fbs. cbn [nth skipn] in Fbs.
  assert (HP : 1 <= prodz (firstn (length c_mults) strides)).
  { apply prodz_pos. eapply Forall_impl; [|exact HF]. intros x [? _]. exact H. }
  pose proof (nth_nonneg (1 :: c_mults) (length c_mults) Hcm1) as Hl.
  unfold OobleckDecoder. cbv zeta.
  replace (len (1 :: c_mults) - 1) with (Z.of_nat (length c_mults))
    by (unfold len; cbn [length]; lia).
  rewrite range_init_down, py_index_head.
  rewrite (py_last_nth (1 :: c_mults)) by discriminate. cbn [length Nat.sub].
  rewrite Nat.sub_0_r.
  cbn -[Z.mul forward nth DecoderBlock init_mapM zdown py_index get_activation WNConv1d].
  rewrite Ebs. rewrite !WNConv1d_valid by (reflexivity || nia).
  rewrite get_activation_ok by nia.
  destruct use_snake, final_tanh; cbn -[Z.mul forward nth]; eexists; (split; [reflexivity|]);
  intros sc sct aa;
  rewrite forward_seq_cons, forward_conv, conv1d_zeros_shape by nia; cbn [bind];
  rewrite Z.div_1_r;
  replace (M + 2 * 3 - 1 * (7 - 1) - 1 + 1) with M by ring;
  rewrite forward_seq_app, Fbs by lia; cbn [bind];
  rewrite forward_seq_cons, forward_act; cbn [bind];
  rewrite forward_seq_cons, forward_conv, conv1d_zeros_shape by nia; cbn [bind];
  rewrite Z.div_1_r; rewrite forward_seq_cons; cbn [forward bind]; f_equal; f_equal; ring.
Qed.

Lemma oobleck_round_trip_aux in_channels channels latent_dim c_mults strides use_snake
  use_nearest_upsample final_tanh M :
  0 <= in_channels -> 0 <= channels -> 0 <= latent_dim -> Forall (fun c => 0 <= c) c_mults ->
  (length c_mults <= length strides)%nat ->
  Forall (fun s => 2 <= s /\ dec_stride_ok use_nearest_upsample s)
    (firstn (length c_mults) strides) -> 1 <= M ->
  exists enc dec,
    OobleckEncoder in_channels channels latent_dim c_mults strides use_snake false false "zeros"
      = Init enc /\
    OobleckDecoder in_channels channels latent_dim c_mults strides use_snake false
      use_nearest_upsample final_tanh false "zeros" = Init dec /\
    forall sc sct aa,
      (z <- forward sc sct aa enc (in_channels, M * prodz (firstn (length c_mults) strides)) ;;
       forward sc sct aa dec z)
      = Ok (in_channels, M * prodz (firstn (length c_mults) strides)).
Proof.
  intros Hin Hch Hlat Hcm Hlen HF HM.
  destruct (oobleck_encoder_shape in_channels channels latent_dim c_mults strides use_snake M)
    as [enc [Ee Fe]]; auto.
  { eapply Forall_impl; [|exact HF]. intros x [? _]. exact H. }
  destruct (oobleck_decoder_shape in_channels channels latent_dim c_mults strides use_snake
              use_nearest_upsample final_tanh M) as [dec [Ed Fd]]; auto.
  { eapply Forall_impl; [|exact HF]. intros x [_ ?]. exact H. }
  exists enc, dec. split; [exact Ee|]. split; [exact Ed|].
  intros sc sct aa. rewrite Fe. cbn [bind]. apply Fd.
Qed.

Lemma residual_unit_init cin cout d k use_snake antialias causal m :
  valid_mode m -> 0 <= cin -> 0 <= cout -> 0 <= k ->
  exists r, ResidualUnit cin cout d k use_snake antialias causal m = Init r.
Proof.
  intros Hm ? ? ?. unfold ResidualUnit. cbv zeta.
  rewrite !WNConv1d_valid by (exact Hm || reflexivity || lia).
  rewrite !get_activation_ok by lia. eexists; reflexivity.
Qed.

Lemma encoder_block_init cin cout s use_snake antialias causal m :
  valid_mode m -> 0 <= cin -> 0 <= cout -> 0 <= s ->
  exists b, EncoderBlock cin cout s use_snake antialias causal m = Init b.
Proof.
  intros Hm ? ? ?. unfold EncoderBlock.
  destruct (residual_unit_init cin cin 1 7 use_snake false causal m) as [r1 ->]; try lia; auto.
  destruct (residual_unit_init cin cin 3 7 use_snake false causal m) as [r2 ->]; try lia; auto.
  destruct (residual_unit_init cin cin 9 7 use_snake false causal m) as [r3 ->]; try lia; auto.
  rewrite get_activation_ok by lia. rewrite create_downsample_ok by (exact Hm || lia).
  cbn [init_bind]. eexists; reflexivity.
Qed.

Lemma enc_blocks_index_error (cm st : list Z) ch us aa causal m0 :
  valid_mode m0 -> Forall (fun c => 0 <= c) cm -> 0 <= ch -> Forall (fun s => 0 <= s) st ->
  forall m j, (j + m < length cm)%nat -> (j <= length st)%nat -> (length st < j + m)%nat ->
  init_mapM (fun i =>
      ci <: py_index cm i ;; ci1 <: py_index cm (i + 1) ;; s <: py_index st i ;;
      EncoderBlock (ci * ch) (ci1 * ch) s us aa causal m0) (zseq (Z.of_nat j) m)
  = InitErr InitIndexError.
Proof.
  intros Hm Hcm Hch Hst. induction m as [|m IH]; intros j H1 H2 H3; [lia|].
  cbn [zseq init_mapM]. replace (Z.of_nat j + 1) with (Z.of_nat (S j)) by lia.
  rewrite !py_index_nat by lia. cbn [init_bind].
  destruct (Nat.eq_dec j (length st)) as [->|Hne].
  - rewrite py_index_oob by lia. reflexivity.
  - rewrite py_index_nat by lia. cbn [init_bind].
    pose proof (nth_nonneg cm j Hcm). pose proof (nth_nonneg cm (S j) Hcm).
    pose proof (nth_nonneg st j Hst).
    destruct (encoder_block_init (nth j cm 0 * ch) (nth (S j) cm 0 * ch) (nth j st 0) us aa
                causal m0) as [b ->]; try nia; auto.
    cbn [init_bind]. rewrite IH by lia. reflexivity.
Qed.

Lemma oobleck_encoder_index_error_aux in_channels channels latent_dim c_mults strides use_snake
  antialias causal padding_mode :
  valid_mode padding_mode -> 0 <= in_channels -> 0 <= channels ->
  Forall (fun c => 0 <= c) c_mults -> Forall (fun s => 0 <= s) strides ->
  (length strides < length c_mults)%nat ->
  OobleckEncoder in_channels channels latent_dim c_mults strides use_snake antialias causal
    padding_mode = InitErr InitIndexError.
Proof.
  intros Hm Hin Hch Hcm Hst Hlen. unfold OobleckEncoder. cbv zeta.
  replace (len (1 :: c_mults) - 1) with (Z.of_nat (length c_mults))
    by (unfold len; cbn [length]; lia).
  rewrite range_init_up, py_index_head. cbn [init_bind].
  rewrite WNConv1d_valid by (exact Hm || lia). cbn [init_bind].
  change 0 with (Z.of_nat 0). rewrite enc_blocks_index_error; cbn [length]; auto; try lia.
  constructor; [lia|exact Hcm].
Qed.

Lemma init_mapM_head_err {A B : Type} (f : A -> init_res B) x l e :
  f x = InitErr e -> init_mapM f (x :: l) = InitErr e.
Proof. intros H. cbn [init_mapM]. rewrite H. reflexivity. Qed.

(** the decoder up to its first DecoderBlock, [range(depth - 1, 0, -1)]
    starting at [len(c_mults)] *)
Lemma oobleck_decoder_first_block_err out_channels channels latent_dim c_mults strides use_snake
  antialias nearest final_tanh causal padding_mode e :
  valid_mode padding_mode -> 0 <= channels -> 0 <= latent_dim ->
  Forall (fun c => 0 <= c) c_mults -> c_mults <> [] ->
  (ci1 <: py_index (1 :: c_mults) (Z.of_nat (length c_mults) - 1) ;;
   s <: py_index strides (Z.of_nat (length c_mults) - 1) ;;
   DecoderBlock (nth (length c_mults) (1 :: c_mults) 0 * channels) (ci1 * channels) s
     use_snake antialias nearest causal padding_mode) = InitErr e ->
  OobleckDecoder out_channels channels latent_dim c_mults strides use_snake antialias nearest
    final_tanh causal padding_mode = InitErr e.
Proof.
  intros Hm Hch Hlat Hcm Hc He. unfold OobleckDecoder. cbv zeta.
  replace (len (1 :: c_mults) - 1) with (Z.of_nat (length c_mults))
    by (unfold len; cbn [length]; lia).
  rewrite range_init_down.
  rewrite (py_last_nth (1 :: c_mults)) by discriminate. cbn [length Nat.sub].
  rewrite Nat.sub_0_r. cbn [init_bind].
  assert (Hcm1 : Forall (fun c => 0 <= c) (1 :: c_mults)) by (constructor; [lia|exact Hcm]).
  pose proof (nth_nonneg (1 :: c_mults) (length c_mults) Hcm1).
  rewrite WNConv1d_valid by (exact Hm || nia). cbn [init_bind].
  destruct (length c_mults) as [|n] eqn:E; [destruct c_mults; cbn in E; congruence|].
  cbn [zdown]. rewrite init_mapM_head_err with (e := e); [reflexivity|].
  rewrite py_index_nat by (cbn [length]; lia). cbn [init_bind]. exact He.
Qed.

Lemma oobleck_decoder_causal_nearest_aux out_channels channels latent_dim c_mults strides
  use_snake antialias final_tanh padding_mode :
  valid_mode padding_mode -> 0 <= channels -> 0 <= latent_dim ->
  Forall (fun c => 0 <= c) c_mults -> c_mults <> [] -> (length c_mults <= length strides)%nat ->
  OobleckDecoder out_channels channels latent_dim c_mults strides use_snake antialias true
    final_tanh true padding_mode
  = InitErr (InitAssertionError "use_nearest_upsample is not implemented for causal mode!").
Proof.
  intros Hm Hch Hlat Hcm Hc Hlen. apply oobleck_decoder_first_block_err; auto.
  replace (Z.of_nat (length c_mults) - 1) with (Z.of_nat (length c_mults - 1))
    by (destruct c_mults; [congruence|cbn [length]; lia]).
  rewrite !py_index_nat by (destruct c_mults; [congruence|cbn [length] in *; lia]).
  cbn [init_bind]. unfold DecoderBlock.
  assert (Hcm1 : Forall (fun c => 0 <= c) (1 :: c_mults)) by (constructor; [lia|exact Hcm]).
  pose proof (nth_nonneg (1 :: c_mults) (length c_mults) Hcm1).
  destruct (get_activation_act_name use_snake antialias
              (nth (length c_mults) (1 :: c_mults) 0 * channels)) as [a ->]; [nia|].
  reflexivity.
Qed.

Lemma oobleck_decoder_index_error_aux out_channels channels latent_dim c_mults strides
  use_snake antialias nearest final_tanh causal padding_mode :
  valid_mode padding_mode -> 0 <= channels -> 0 <= latent_dim ->
  Forall (fun c => 0 <= c) c_mults -> (length strides < length c_mults)%nat ->
  OobleckDecoder out_channels channels latent_dim c_mults strides use_snake antialias nearest
    final_tanh causal padding_mode = InitErr InitIndexError.
Proof.
  intros Hm Hch Hlat Hcm Hlen.
  assert (Hc : c_mults <> []) by (intros ->; cbn in Hlen; lia).
  apply oobleck_decoder_first_block_err; auto.
  replace (Z.of_nat (length c_mults) - 1) with (Z.of_nat (length c_mults - 1)) by lia.
  rewrite py_index_nat by (cbn [length]; lia). cbn [init_bind].
  rewrite py_index_oob by lia. reflexivity.
Qed.

(** ** preprocess_audio_list_for_encoder *)

Lemma normalize_ok a :
  audio_rank_ok a = true ->
  length (normalize_audio a) = 2%nat /\ last_dim (normalize_audio a) = last_dim a.
Proof.
  unfold audio_rank_ok, normalize_audio, last_dim.
  destruct a as [|x [|y [|z [|w r]]]]; cbn; try discriminate; intros H.
  - split; reflexivity.
  - split; reflexivity.
  - rewrite H. split; reflexivity.
Qed.

Lemma normalize_bad a :
  audio_rank_ok a = false -> length (normalize_audio a) <> 2%nat.
Proof.
  unfold audio_rank_ok, normalize_audio.
  destruct a as [|x [|y [|z [|w r]]]]; cbn; try discriminate; intros H;
    try rewrite H; cbn; discriminate.
Qed.

Lemma resample_loop_ok sr rs items :
  Forall (fun a => audio_rank_ok a = true) items ->
  forall acc mx ls,
  resample_loop sr rs items (repeat sr (length items)) acc mx ls =
  Ok (acc ++ map normalize_audio items,
      fold_left (fun m a => Z.max m (last_dim a)) items mx,
      match items with [] => ls | _ => Some sr end).
Proof.
  induction 1 as [|a items Ha Hitems IH]; intros acc mx ls.
  - cbn. rewrite app_nil_r. reflexivity.
  - cbn [resample_loop repeat length]. fold (normalize_audio a).
    destruct (normalize_ok a Ha) as [Hl Hd].
    rewrite Hl. cbn [Nat.eqb py_assert negb bind]. rewrite Z.eqb_refl. cbn [negb].
    rewrite IH. cbn [fold_left map]. rewrite <- app_assoc. cbn [app].
    rewrite Hd. replace (if Z.ltb mx (last_dim a) then last_dim a else mx)
      with (Z.max mx (last_dim a)) by (destruct (Z.ltb_spec mx (last_dim a)); lia).
    destruct items; reflexivity.
Qed.

Lemma pad_props m mx :
  0 < m -> 0 <= mx ->
  (mx + (m - mx mod m) mod m) mod m = 0 /\ mx <= mx + (m - mx mod m) mod m /\
  forall Q, mx <= Q -> Q mod m = 0 -> mx + (m - mx mod m) mod m <= Q.
Proof.
  intros Hm Hmx.
  pose proof (Z.div_mod mx m ltac:(lia)) as Hd.
  pose proof (Z.mod_pos_bound mx m Hm) as Hr.
  set (q := mx / m) in *. set (r := mx mod m) in *.
  destruct (Z.eq_dec r 0) as [H0|H0].
  - rewrite H0, Z.sub_0_r, Z.mod_same by lia. rewrite Z.add_0_r.
    split; [exact H0|]. split; [lia|]. intros; lia.
  - rewrite (Z.mod_small (m - r) m) by lia.
    replace (mx + (m - r)) with ((q + 1) * m) by lia.
    split; [apply Z.mod_mul; lia|]. split; [nia|].
    intros Q HQ HQm.
    pose proof (Z.div_mod Q m ltac:(lia)) as HQd. rewrite HQm, Z.add_0_r in HQd.
    assert (q < Q / m) by nia. nia.
Qed.

Lemma fold_max_props (items : list (list Z)) :
  forall mx,
  mx <= fold_left (fun m a => Z.max m (last_dim a)) items mx /\
  Forall (fun a => last_dim a <= fold_left (fun m a => Z.max m (last_dim a)) items mx) items /\
  forall Q, mx <= Q -> Forall (fun a => last_dim a <= Q) items ->
    fold_left (fun m a => Z.max m (last_dim a)) items mx <= Q.
Proof.
  induction items as [|a items IH]; intros mx; cbn [fold_left].
  - split; [lia|]. split; [constructor|]. intros; lia.
  - destruct (IH (Z.max mx (last_dim a))) as (H1 & H2 & H3).
    split; [lia|]. split; [constructor; [lia|exact H2]|].
    intros Q HQ HF. inversion HF; subst. apply H3; [lia|assumption].
Qed.

Lemma res_mapM_prepare (f : list Z -> res (list Z)) (l : list (list Z)) v :
  (forall a, In a l -> f a = Ok v) -> res_mapM f l = Ok (repeat v (length l)).
Proof.
  induction l as [|a l IH]; intros H; cbn [res_mapM]; [reflexivity|].
  rewrite H by (left; reflexivity). cbn [bind].
  rewrite IH by (intros; apply H; right; assumption). reflexivity.
Qed.

Lemma torch_stack_repeat v n :
  (0 < n)%nat -> torch_stack (repeat v n) = Ok (Z.of_nat n :: v).
Proof.
  destruct n as [|n]; [lia|]. intros _. cbn [repeat torch_stack].
  replace (forallb _ (repeat v n)) with true.
  - cbn [length]. rewrite repeat_length. reflexivity.
  - induction n as [|n IH]; cbn; [reflexivity|].
    destruct (list_eq_dec Z.eq_dec v v) as [_|C]; [exact IH|congruence].
Qed.

Section PreprocessProofs.
Variable sample_rate : Z.
Variable min_length : positive.
Variable in_channels : Z.
Variable resample : Z -> Z -> list Z -> list Z.
Variable prepare_audio : list Z -> Z -> Z -> Z -> Z -> res (list Z).

Lemma preprocess_padded_shape_aux audio_list :
  (forall a sr tl, length a = 2%nat ->
     prepare_audio a sr sr tl in_channels = Ok [1; in_channels; tl]) ->
  audio_list <> [] ->
  Forall (fun a => audio_rank_ok a = true) audio_list ->
  exists P,
    preprocess_audio_list_for_encoder sample_rate min_length in_channels resample
      prepare_audio audio_list (inl sample_rate)
    = Ok [Z.of_nat (length audio_list); in_channels; P] /\
    P mod Z.pos min_length = 0 /\
    Forall (fun a => last_dim a <= P) audio_list /\
    forall Q, 0 <= Q -> Q mod Z.pos min_length = 0 ->
      Forall (fun a => last_dim a <= Q) audio_list -> P <= Q.
Proof.
  intros Hprep Hne Hok.
  unfold preprocess_audio_list_for_encoder.
  rewrite repeat_length, Nat.eqb_refl. cbn [py_assert negb bind].
  rewrite resample_loop_ok by exact Hok. cbn [app bind].
  destruct (fold_max_props audio_list 0) as (Hm0 & Hmall & Hmleast).
  set (mx := fold_left _ audio_list 0) in *.
  destruct (pad_props (Z.pos min_length) mx ltac:(lia) Hm0) as (Hp1 & Hp2 & Hp3).
  set (P := mx + _) in *.
  exists P.
  replace (match audio_list with [] => None | _ => Some sample_rate end)
    with (Some sample_rate) by (destruct audio_list; [congruence|reflexivity]).
  rewrite (res_mapM_prepare _ _ [in_channels; P]).
  2:{ intros a Ha. apply in_map_iff in Ha. destruct Ha as (b & <- & Hb).
      rewrite Forall_forall in Hok.
      destruct (normalize_ok b (Hok b Hb)) as [Hl _].
      unfold normalize_audio in Hl. rewrite (Hprep _ _ _ Hl). reflexivity. }
  cbn [bind]. rewrite length_map, torch_stack_repeat
    by (destruct audio_list; [congruence|cbn; lia]).
  split; [reflexivity|]. split; [exact Hp1|]. split.
  - eapply Forall_impl; [|exact Hmall]. intros a Ha; cbn in Ha; lia.
  - intros Q HQ HQm HF. apply Hp3; [apply Hmleast; assumption|exact HQm].
Qed.

Lemma resample_loop_bad_shape rs items :
  Exists (fun a => audio_rank_ok a = false) items ->
  forall srs, length srs = length items ->
  forall acc mx ls,
  resample_loop sample_rate rs items srs acc mx ls =
  Err (AssertionError "Audio should be shape (Channels x Length) with no batch dimension"%string).
Proof.
  induction 1 as [a items Ha|a items Hex IH]; intros srs Hlen acc mx ls;
    destruct srs as [|sr srs]; try discriminate; cbn [resample_loop].
  - fold (normalize_audio a). apply normalize_bad in Ha.
    apply Nat.eqb_neq in Ha. rewrite Ha. reflexivity.
  - fold (normalize_audio a).
    destruct (Nat.eqb (length (normalize_audio a)) 2) eqn:E.
    + cbn [py_assert negb bind]. apply IH. cbn in Hlen. lia.
    + reflexivity.
Qed.

Lemma preprocess_bad_shape_aux audio_list in_sr_list :
  match in_sr_list with inl _ => True | inr l => length l = length audio_list end ->
  Exists (fun a => audio_rank_ok a = false) audio_list ->
  preprocess_audio_list_for_encoder sample_rate min_length in_channels resample
    prepare_audio audio_list in_sr_list
  = Err (AssertionError "Audio should be shape (Channels x Length) with no batch dimension"%string).
Proof.
  intros Hl Hex. unfold preprocess_audio_list_for_encoder.
  assert (Hlen : length (match in_sr_list with inl sr => repeat sr (length audio_list)
                         | inr l => l end) = length audio_list)
    by (destruct in_sr_list; [apply repeat_length|exact Hl]).
  rewrite Hlen, Nat.eqb_refl. cbn [py_assert negb bind].
  rewrite resample_loop_bad_shape by assumption. reflexivity.
Qed.

End PreprocessProofs.

(** ** create_diffAE_from_config *)

Section DiffAEProofs.
Local Open Scope string_scope.
Variable py_import : string -> string -> res unit.
Variables new_encoder new_decoder : string -> pyval -> cm unit.
Variable new_pretransform : pyval -> pyval -> cm unit.
Variable new_bottleneck : pyval -> cm unit.
Variable new_diffusion : string -> pyval -> dm unit.
Variable new_diffusion_autoencoder : diffusion_autoencoder -> dm unit.

Lemma py_contains_dict k d v : dict_lookup k d = Some v -> py_contains k (PDict d) = Ok true.
Proof. intros H. cbn [py_contains]. rewrite H. reflexivity. Qed.

Ltac dm_step := cbn [dm_lift dm_bind dm_ret dm_log dm_of_cm fst snd map app].

Lemma diffae_unknown_type_aux top md ec dc le te ld td dd t lp lb :
  dict_lookup "model" top = Some (PDict md) ->
  dict_lookup "encoder" md = Some ec ->
  create_encoder_from_config py_import new_encoder ec = (le, Ok te) ->
  dict_lookup "decoder" md = Some dc ->
  create_decoder_from_config py_import new_decoder dc = (ld, Ok td) ->
  dict_lookup "diffusion" md = Some (PDict dd) ->
  dict_lookup "type" dd = Some t ->
  existsb (py_eq_str t) diffusion_types = false ->
  Forall (fun p => snd p <> PNone) (required_fields top md) ->
  (is_none (dict_get "pretransform" md PNone) = false ->
   new_pretransform (dict_get "pretransform" md PNone) (dict_get "sample_rate" top PNone)
   = (lp, Ok tt)) ->
  (is_none (dict_get "bottleneck" md PNone) = false ->
   new_bottleneck (dict_get "bottleneck" md PNone) = (lb, Ok tt)) ->
  create_diffAE_from_config py_import new_encoder new_decoder new_pretransform new_bottleneck
    new_diffusion new_diffusion_autoencoder (PDict top)
  = (map DAlloc (le ++ ld ++
       (if is_none (dict_get "pretransform" md PNone) then [] else lp) ++
       (if is_none (dict_get "bottleneck" md PNone) then [] else lb)),
     Err UnboundLocalError).
Proof.
  intros Hm He Hce Hd Hcd Hdd Ht Hty Hreq Hp Hb.
  cbn [existsb diffusion_types] in Hty. apply orb_false_iff in Hty as [H1 Hty].
  apply orb_false_iff in Hty as [H2 Hty]. apply orb_false_iff in Hty as [H3 _].
  unfold create_diffAE_from_config.
  rewrite (getitem_dict _ _ _ Hm). dm_step.
  rewrite (py_contains_dict _ _ _ He). dm_step.
  rewrite (getitem_dict _ _ _ He). dm_step. rewrite Hce. dm_step.
  rewrite (py_contains_dict _ _ _ Hd). dm_step.
  rewrite (getitem_dict _ _ _ Hd). dm_step. rewrite Hcd. dm_step.
  rewrite (getitem_dict _ _ _ Hdd). dm_step. rewrite (getitem_dict _ _ _ Ht). dm_step.
  replace (match t with
           | PStr ty => if existsb (String.eqb ty) diffusion_types then _ else _
           | _ => dm_ret None end) with (@dm_ret (option string) None)
    by (destruct t; try reflexivity; cbn [py_eq_str] in *;
        cbn [existsb diffusion_types]; rewrite H1, H2, H3; reflexivity).
  rewrite H1, H2, H3. dm_step. cbn [get].
  unfold required_fields in Hreq.
  repeat match goal with
         | H : Forall _ (_ :: _) |- _ => inversion H; clear H; subst
         end.
  cbn [snd] in *.
  repeat match goal with
         | H : ?v <> PNone |- _ => destruct v; try congruence; clear H
         end;
  cbn [is_none negb py_assert]; dm_step;
  destruct (is_none (dict_get "pretransform" md PNone)) eqn:Ep; try rewrite (Hp eq_refl);
  destruct (is_none (dict_get "bottleneck" md PNone)) eqn:Eb; try rewrite (Hb eq_refl);
  cbn [is_none negb py_assert dm_lift dm_bind dm_ret dm_of_cm fst snd app];
  rewrite ?map_app, ?app_nil_r; reflexivity.
Qed.

Lemma diffae_missing_key_aux top md ec dc le te ld td dd ty cfg ldiff pre k post :
  dict_lookup "model" top = Some (PDict md) ->
  dict_lookup "encoder" md = Some ec ->
  create_encoder_from_config py_import new_encoder ec = (le, Ok te) ->
  dict_lookup "decoder" md = Some dc ->
  create_decoder_from_config py_import new_decoder dc = (ld, Ok td) ->
  dict_lookup "diffusion" md = Some (PDict dd) ->
  dict_lookup "type" dd = Some (PStr ty) ->
  In ty diffusion_types ->
  dict_lookup "config" dd = Some cfg ->
  new_diffusion ty cfg = (ldiff, Ok tt) ->
  required_fields top md = (pre ++ (k, PNone) :: post)%list ->
  Forall (fun p => snd p <> PNone) pre ->
  create_diffAE_from_config py_import new_encoder new_decoder new_pretransform new_bottleneck
    new_diffusion new_diffusion_autoencoder (PDict top)
  = ((map DAlloc (le ++ ld) ++ ldiff)%list, Err (AssertionError (required_message k))).
Proof.
  intros Hm He Hce Hd Hcd Hdd Ht Hty Hc Hnd Hreq Hpre.
  unfold create_diffAE_from_config.
  rewrite (getitem_dict _ _ _ Hm). dm_step.
  rewrite (py_contains_dict _ _ _ He). dm_step.
  rewrite (getitem_dict _ _ _ He). dm_step. rewrite Hce. dm_step.
  rewrite (py_contains_dict _ _ _ Hd). dm_step.
  rewrite (getitem_dict _ _ _ Hd). dm_step. rewrite Hcd. dm_step.
  rewrite (getitem_dict _ _ _ Hdd). dm_step. rewrite (getitem_dict _ _ _ Ht). dm_step.
  replace (existsb (String.eqb ty) diffusion_types) with true
    by (symmetry; apply existsb_exists; exists ty; split; [exact Hty|apply String.eqb_refl]).
  rewrite (getitem_dict _ _ _ Hc). dm_step. rewrite Hnd. dm_step.
  cbn [get].
  unfold required_fields in Hreq.
  destruct pre as [|p1 [|p2 [|p3 [|p4 pre]]]]; cbn [app] in Hreq;
    injection Hreq; intros; subst;
    try (exfalso; eapply app_cons_not_nil; eassumption);
    repeat match goal with
           | H : Forall _ (_ :: _) |- _ => inversion H; clear H; subst
           end;
    cbn [snd] in *;
    repeat match goal with
           | H : dict_get ?x ?d PNone = PNone |- _ => rewrite H
           end;
    repeat match goal with
           | H : ?v <> PNone |- _ => destruct v; try congruence; clear H
           end;
    cbn [is_none negb py_assert dm_lift dm_bind dm_ret app];
    rewrite ?map_app, ?app_nil_r, <- ?app_assoc; reflexivity.
Qed.

End DiffAEProofs.

(** ** Chunking edge cases and the module factories *)

Lemma chunk_windows_zero_hop total chunk :
  chunk_windows total chunk 0 = Err ValueError.
Proof. reflexivity. Qed.

Lemma chunk_windows_negative_hop total chunk hop :
  hop < 0 -> chunk <= total + 1 -> chunk_windows total chunk hop = Err UnboundLocalError.
Proof.
  intros Hh Hc. unfold chunk_windows, py_range.
  replace (hop =? 0) with false by lia. replace (0 <? hop) with false by lia.
  replace (Z.to_nat (0 - (total - chunk + 1))) with O by lia.
  reflexivity.
Qed.

Lemma chunked_overlap_eq_chunk_aux (Aud Lat Info : Type) (zl : Lat) (za : Aud) R enc dec
  (enc_kw : kwargs -> list Aud -> enc_ret Lat Info) dec_kw
  (audio : list Aud) (latents : list Lat) C kw :
  encode_audio Aud Lat Info zl R enc enc_kw audio true C C kw = Err ValueError
  /\ decode_audio Aud Lat za R dec dec_kw latents true C C kw = Err ValueError.
Proof.
  split.
  - unfold encode_audio, encode_audio_chunked. cbn [negb].
    rewrite Z.sub_diag, chunk_windows_zero_hop. reflexivity.
  - unfold decode_audio, decode_audio_chunked. cbn [negb].
    rewrite Z.sub_diag, chunk_windows_zero_hop. reflexivity.
Qed.

Lemma chunked_overlap_gt_chunk_aux (Aud Lat Info : Type) (zl : Lat) (za : Aud) R enc dec
  (enc_kw : kwargs -> list Aud -> enc_ret Lat Info) dec_kw
  (audio : list Aud) (latents : list Lat) O C kw :
  0 < R -> C < O ->
  C * R <= Z.of_nat (length audio) + 1 -> C <= Z.of_nat (length latents) + 1 ->
  encode_audio Aud Lat Info zl R enc enc_kw audio true O C kw = Err UnboundLocalError
  /\ decode_audio Aud Lat za R dec dec_kw latents true O C kw = Err UnboundLocalError.
Proof.
  intros HR HO Ha Hl. split.
  - unfold encode_audio, encode_audio_chunked. cbn [negb].
    rewrite chunk_windows_negative_hop by nia. reflexivity.
  - unfold decode_audio, decode_audio_chunked. cbn [negb].
    rewrite chunk_windows_negative_hop by lia. reflexivity.
Qed.

(** ** Further properties of the code *)

















(** An OobleckEncoder (any padding mode nn.Conv1d accepts) with positive
    [in_channels], [channels], [c_mults] and [strides], given fewer
    [strides] than [c_mults], raises IndexError while building its blocks:
    [strides[i]] is read for every [i < len(c_mults)]. *)
Theorem oobleck_encoder_short_strides_index_error in_channels channels latent_dim c_mults
  strides use_snake antialias causal padding_mode :
  valid_mode padding_mode -> 1 <= in_channels -> 1 <= channels ->
  Forall (fun c => 1 <= c) c_mults -> Forall (fun s => 1 <= s) strides ->
  (length strides < length c_mults)%nat ->
  OobleckEncoder in_channels channels latent_dim c_mults strides use_snake antialias causal
    padding_mode = InitErr InitIndexError.
Proof.
  intros Hm Hi Hc Hcm Hst.
  exact (oobleck_encoder_index_error_aux in_channels channels latent_dim c_mults strides
           use_snake antialias causal padding_mode Hm ltac:(lia) ltac:(lia)
           (Forall_pos_nonneg c_mults Hcm) (Forall_pos_nonneg strides Hst)).
Qed.

Lemma oobleck_encoder_short_strides_index_error_witness :
  OobleckEncoder 2 128 64 [1; 2; 4; 8] [2; 4; 8] true false false "reflect"
  = InitErr InitIndexError.
Proof.
  apply oobleck_encoder_short_strides_index_error; try reflexivity; try lia.
  - repeat (apply Forall_cons; [lia|]). apply Forall_nil.
  - repeat (apply Forall_cons; [lia|]). apply Forall_nil.
  - cbn. lia.
Defined.





(** Given a [prepare_audio] that returns shape [(1, in_channels,
    target_length)] for any 2-D input, and a nonempty list of audio of
    shapes [(C, L)], [(L,)] or [(1, C, L)] at the model's sample rate,
    preprocess_audio_list_for_encoder returns a batch
    [(len(audio_list), in_channels, P)]: [P] is the least multiple of
    [min_length] that is not negative and not below any input length. *)
Theorem preprocess_pads_to_min_length_multiple sample_rate min_length in_channels resample
  prepare_audio audio_list :
  (forall a sr tl, length a = 2%nat ->
     prepare_audio a sr sr tl in_channels = Ok [1; in_channels; tl]) ->
  audio_list <> [] ->
  Forall (fun a => audio_rank_ok a = true) audio_list ->
  exists P,
    preprocess_audio_list_for_encoder sample_rate min_length in_channels resample
      prepare_audio audio_list (inl sample_rate)
    = Ok [Z.of_nat (length audio_list); in_channels; P] /\
    P mod Z.pos min_length = 0 /\
    Forall (fun a => last_dim a <= P) audio_list /\
    forall Q, 0 <= Q -> Q mod Z.pos min_length = 0 ->
      Forall (fun a => last_dim a <= Q) audio_list -> P <= Q.
Proof.
  exact (preprocess_padded_shape_aux sample_rate min_length in_channels resample
           prepare_audio audio_list).
Qed.

Lemma preprocess_pads_to_min_length_multiple_witness :
  exists P,
    preprocess_audio_list_for_encoder 44100 2048 2 (fun _ _ a => a)
      (fun _ _ _ tl ch => Ok [1; ch; tl]) [[2; 1000]; [3000]; [1; 2; 5000]] (inl 44100)
    = Ok [3; 2; P] /\
    P mod 2048 = 0 /\
    Forall (fun a => last_dim a <= P) [[2; 1000]; [3000]; [1; 2; 5000]] /\
    forall Q, 0 <= Q -> Q mod 2048 = 0 ->
      Forall (fun a => last_dim a <= Q) [[2; 1000]; [3000]; [1; 2; 5000]] -> P <= Q.
Proof.
  apply (preprocess_pads_to_min_length_multiple 44100 2048 2 (fun _ _ a => a)
           (fun _ _ _ tl ch => Ok [1; ch; tl]) [[2; 1000]; [3000]; [1; 2; 5000]]).
  - intros; reflexivity.
  - discriminate.
  - repeat constructor.
Defined.



Section DiffAEExtras.
Local Open Scope string_scope.
Variable py_import : string -> string -> res unit.
Variables new_encoder new_decoder : string -> pyval -> cm unit.
Variable new_pretransform : pyval -> pyval -> cm unit.
Variable new_bottleneck : pyval -> cm unit.
Variable new_diffusion : string -> pyval -> dm unit.
Variable new_diffusion_autoencoder : diffusion_autoencoder -> dm unit.


(** For a known diffusion type whose model builds (allocating [ldiff]), if
    the first of [latent_dim], [downsampling_ratio], [io_channels] (of the
    model config) and [sample_rate] (top level) that is missing or None is
    [k], create_diffAE_from_config raises AssertionError
    "<k> must be specified in model config", after the encoder, the decoder
    and the diffusion model were built: everything they allocated is still
    allocated. *)
Theorem diffae_missing_key_after_diffusion_alloc top md ec dc le te ld td dd ty cfg ldiff
  pre k post :
  dict_lookup "model" top = Some (PDict md) ->
  dict_lookup "encoder" md = Some ec ->
  create_encoder_from_config py_import new_encoder ec = (le, Ok te) ->
  dict_lookup "decoder" md = Some dc ->
  create_decoder_from_config py_import new_decoder dc = (ld, Ok td) ->
  dict_lookup "diffusion" md = Some (PDict dd) ->
  dict_lookup "type" dd = Some (PStr ty) ->
  In ty diffusion_types ->
  dict_lookup "config" dd = Some cfg ->
  new_diffusion ty cfg = (ldiff, Ok tt) ->
  required_fields top md = (pre ++ (k, PNone) :: post)%list ->
  Forall (fun p => snd p <> PNone) pre ->
  create_diffAE_from_config py_import new_encoder new_decoder new_pretransform new_bottleneck
    new_diffusion new_diffusion_autoencoder (PDict top)
  = ((map DAlloc (le ++ ld) ++ ldiff)%list, Err (AssertionError (required_message k))).
Proof.
  exact (diffae_missing_key_aux py_import new_encoder new_decoder new_pretransform
           new_bottleneck new_diffusion new_diffusion_autoencoder top md ec dc le te ld td dd ty
           cfg ldiff pre k post).
Qed.

End DiffAEExtras.

Section DiffAEExtraExamples.
Local Open Scope string_scope.


Lemma diffae_missing_key_after_diffusion_alloc_witness :
  create_diffAE_from_config example_import example_new_encoder example_new_decoder
    example_new_pretransform example_new_bottleneck example_new_diffusion
    example_new_diffusion_autoencoder (PDict (diffae_config "dit" "downsampling_ratio"))
  = ([DAlloc (AllocEncoder "oobleck"); DAlloc (AllocDecoder "oobleck"); AllocDiffusion "dit"],
     Err (AssertionError (required_message "downsampling_ratio"))).
Proof.
  apply (diffae_missing_key_after_diffusion_alloc example_import example_new_encoder
           example_new_decoder example_new_pretransform example_new_bottleneck
           example_new_diffusion example_new_diffusion_autoencoder
           (diffae_config "dit" "downsampling_ratio")
           (diffae_model_config "dit" "downsampling_ratio") oobleck_section oobleck_section
           [AllocEncoder "oobleck"] "oobleck" [AllocDecoder "oobleck"] "oobleck"
           [("type", PStr "dit"); ("config", PDict [("io_channels", PInt 64)])] "dit"
           (PDict [("io_channels", PInt 64)]) [AllocDiffusion "dit"]
           [("latent_dim", PInt 64)] "downsampling_ratio"
           [("io_channels", PInt 2); ("sample_rate", PInt 44100)]); try reflexivity.
  - cbn. auto.
  - repeat constructor; discriminate.
Defined.

End DiffAEExtraExamples.

(** With [overlap == chunk_size], the chunked encode_audio and decode_audio
    raise ValueError from [range(..., 0)] (a zero hop) before any codec
    call, whatever the input and the downsampling ratio. *)
Theorem chunked_overlap_eq_chunk_value_error (Aud Lat Info : Type) (zl : Lat) (za : Aud) R
  enc dec (enc_kw : kwargs -> list Aud -> enc_ret Lat Info) dec_kw
  (audio : list Aud) (latents : list Lat) C kw :
  encode_audio Aud Lat Info zl R enc enc_kw audio true C C kw = Err ValueError
  /\ decode_audio Aud Lat za R dec dec_kw latents true C C kw = Err ValueError.
Proof. exact (chunked_overlap_eq_chunk_aux Aud Lat Info zl za R enc dec enc_kw dec_kw audio latents C kw). Qed.

(** With [overlap > chunk_size] (a negative hop), a positive downsampling
    ratio and an input at least [chunk_size - 1] long (after conversion to
    samples for encode_audio), the hop-grid range is empty and the chunked
    encode_audio and decode_audio raise UnboundLocalError before any codec
    call. *)
Theorem chunked_overlap_gt_chunk_unbound_local (Aud Lat Info : Type) (zl : Lat) (za : Aud) R
  enc dec (enc_kw : kwargs -> list Aud -> enc_ret Lat Info) dec_kw
  (audio : list Aud) (latents : list Lat) O C kw :
  0 < R -> C < O ->
  C * R <= Z.of_nat (length audio) + 1 -> C <= Z.of_nat (length latents) + 1 ->
  encode_audio Aud Lat Info zl R enc enc_kw audio true O C kw = Err UnboundLocalError
  /\ decode_audio Aud Lat za R dec dec_kw latents true O C kw = Err UnboundLocalError.
Proof.
  exact (chunked_overlap_gt_chunk_aux Aud Lat Info zl za R enc dec enc_kw dec_kw audio latents
           O C kw).
Qed.

Lemma chunked_overlap_gt_chunk_unbound_local_witness :
  encode_audio Z Z unit 0 10 (toy_encode 10) (toy_encode_kw 10) (repeat 0 1000) true 40 32 []
    = Err UnboundLocalError
  /\ decode_audio Z Z 0 10 (toy_decode 10) (fun _ => toy_decode 10) (repeat 0 100) true 40 32 []
    = Err UnboundLocalError.
Proof.
  apply (chunked_overlap_gt_chunk_unbound_local Z Z unit 0 0 10 (toy_encode 10) (toy_decode 10)
           (toy_encode_kw 10) (fun _ => toy_decode 10) (repeat 0 1000) (repeat 0 100) 40 32 []);
    rewrite ?repeat_length; lia.
Defined.

